(** * GateMiniCRM: the local store, its editing paths and the sync engine

    A shallow embedding of [GateMiniCRM.py] (module [App]) and of the
    pack-based merge engine the specification describes (module [GateSync]),
    followed by the properties established about them. *)

From Stdlib Require Import ZArith Ascii String Floats.PrimFloat.
From Stdlib Require Import DecimalString DecimalZ DecimalPos.
From stdpp Require Import gmap strings list.

Local Open Scope Z_scope.

(** ** The application: [GateMiniCRM.py] *)

Module App.

(** *** The store created by [init_db] *)

(** The seven business tables of the [executescript] in [init_db]. *)
Inductive table_name :=
  | companies | contacts | deals | activities
  | time_entries | invoices | invoice_items.

(** How a table declares its primary key. *)
Record key_decl := {
  key_column : string;
  key_type : string;
  key_autoincrement : bool
}.

(** Every [CREATE TABLE] of a business table opens with
    [id INTEGER PRIMARY KEY AUTOINCREMENT]; no other key column is declared. *)
Definition primary_key (t : table_name) : key_decl :=
  match t with
  | companies | contacts | deals | activities
  | time_entries | invoices | invoice_items =>
      {| key_column := "id"; key_type := "INTEGER"; key_autoincrement := true |}
  end.

(** A foreign key column, the table it references and the referenced column. *)
Definition foreign_keys (t : table_name) : list (string * table_name * string) :=
  match t with
  | companies => []
  | contacts => [("company_id", companies, "id")]
  | deals => [("company_id", companies, "id"); ("contact_id", contacts, "id")]
  | activities => [("deal_id", deals, "id"); ("company_id", companies, "id")]
  | time_entries => [("deal_id", deals, "id")]
  | invoices => [("deal_id", deals, "id")]
  | invoice_items => [("invoice_id", invoices, "id")]
  end.

(** SQLite values as the program binds and reads them. *)
Inductive value :=
  | VNull
  | VInt (n : Z)
  | VReal (x : float)
  | VText (s : string).

(** A row without its rowid: column name to value. *)
Abbreviation row := (gmap string value).

(** A table: its rows in storage order, each with its rowid (the [id] column),
    and the largest rowid ever handed out (what [AUTOINCREMENT] keeps in
    [sqlite_sequence]). Rowids are taken as unbounded integers: a store that
    has used up the 63-bit rowid space is not modelled. *)
Record table := {
  rows : list (Z * row);
  last_id : Z
}.

Definition empty_table : table := {| rows := []; last_id := 0 |}.

(** One row-level change, as a database-level hook sees it. *)
Inductive operation := op_insert | op_update | op_delete.

Record change := {
  ch_table : table_name;
  ch_op : operation;
  ch_rowid : Z
}.

(** The content of the database file. [hooks] lists the tables on which a
    row-change hook is installed and [change_log] is what such hooks have
    written; [init_db] creates neither a hook nor a log. *)
Record db := {
  settings : gmap string string;
  t_companies : table;
  t_contacts : table;
  t_deals : table;
  t_activities : table;
  t_time_entries : table;
  t_invoices : table;
  t_invoice_items : table;
  hooks : list table_name;
  change_log : list change
}.

Definition get_table (t : table_name) (d : db) : table :=
  match t with
  | companies => t_companies d
  | contacts => t_contacts d
  | deals => t_deals d
  | activities => t_activities d
  | time_entries => t_time_entries d
  | invoices => t_invoices d
  | invoice_items => t_invoice_items d
  end.

Definition set_table (t : table_name) (x : table) (d : db) : db :=
  match t with
  | companies =>
      {| settings := settings d; t_companies := x; t_contacts := t_contacts d;
         t_deals := t_deals d; t_activities := t_activities d;
         t_time_entries := t_time_entries d; t_invoices := t_invoices d;
         t_invoice_items := t_invoice_items d;
         hooks := hooks d; change_log := change_log d |}
  | contacts =>
      {| settings := settings d; t_companies := t_companies d; t_contacts := x;
         t_deals := t_deals d; t_activities := t_activities d;
         t_time_entries := t_time_entries d; t_invoices := t_invoices d;
         t_invoice_items := t_invoice_items d;
         hooks := hooks d; change_log := change_log d |}
  | deals =>
      {| settings := settings d; t_companies := t_companies d;
         t_contacts := t_contacts d; t_deals := x;
         t_activities := t_activities d;
         t_time_entries := t_time_entries d; t_invoices := t_invoices d;
         t_invoice_items := t_invoice_items d;
         hooks := hooks d; change_log := change_log d |}
  | activities =>
      {| settings := settings d; t_companies := t_companies d;
         t_contacts := t_contacts d; t_deals := t_deals d;
         t_activities := x;
         t_time_entries := t_time_entries d; t_invoices := t_invoices d;
         t_invoice_items := t_invoice_items d;
         hooks := hooks d; change_log := change_log d |}
  | time_entries =>
      {| settings := settings d; t_companies := t_companies d;
         t_contacts := t_contacts d; t_deals := t_deals d;
         t_activities := t_activities d;
         t_time_entries := x; t_invoices := t_invoices d;
         t_invoice_items := t_invoice_items d;
         hooks := hooks d; change_log := change_log d |}
  | invoices =>
      {| settings := settings d; t_companies := t_companies d;
         t_contacts := t_contacts d; t_deals := t_deals d;
         t_activities := t_activities d;
         t_time_entries := t_time_entries d; t_invoices := x;
         t_invoice_items := t_invoice_items d;
         hooks := hooks d; change_log := change_log d |}
  | invoice_items =>
      {| settings := settings d; t_companies := t_companies d;
         t_contacts := t_contacts d; t_deals := t_deals d;
         t_activities := t_activities d;
         t_time_entries := t_time_entries d; t_invoices := t_invoices d;
         t_invoice_items := x;
         hooks := hooks d; change_log := change_log d |}
  end.

Definition set_settings (s : gmap string string) (d : db) : db :=
  {| settings := s; t_companies := t_companies d; t_contacts := t_contacts d;
     t_deals := t_deals d; t_activities := t_activities d;
     t_time_entries := t_time_entries d; t_invoices := t_invoices d;
     t_invoice_items := t_invoice_items d;
     hooks := hooks d; change_log := change_log d |}.

Definition set_change_log (l : list change) (d : db) : db :=
  {| settings := settings d; t_companies := t_companies d;
     t_contacts := t_contacts d;
     t_deals := t_deals d; t_activities := t_activities d;
     t_time_entries := t_time_entries d; t_invoices := t_invoices d;
     t_invoice_items := t_invoice_items d;
     hooks := hooks d; change_log := l |}.

(** [init_db] on a machine that has no database file yet: every
    [CREATE TABLE IF NOT EXISTS] creates an empty table. *)
Definition init_db : db :=
  {| settings := ∅;
     t_companies := empty_table; t_contacts := empty_table;
     t_deals := empty_table; t_activities := empty_table;
     t_time_entries := empty_table; t_invoices := empty_table;
     t_invoice_items := empty_table;
     hooks := []; change_log := [] |}.

(** A [sqlite3.Connection]: what statements run on this connection see
    ([pending], which includes its own uncommitted writes) and what the file
    holds ([stored]). *)
Record conn := {
  pending : db;
  stored : db
}.

(** [connect_db]: a new connection sees what the file holds. *)
Definition connect_db (file : db) : conn :=
  {| pending := file; stored := file |}.

(** [conn.commit()]. *)
Definition commit (c : conn) : conn :=
  {| pending := pending c; stored := pending c |}.

(** Run a change of the connection's view, leaving the file as it is until
    the next [commit]. *)
Definition execute (f : db -> db) (c : conn) : conn :=
  {| pending := f (pending c); stored := stored c |}.

(** *** Settings: [get_setting], [set_setting] *)

(** [SELECT value FROM settings WHERE key=?], then [r[0] if r else None];
    [key] is the primary key, so at most one row matches. *)
Definition get_setting (c : conn) (key : string) : option string :=
  settings (pending c) !! key.

(** [REPLACE INTO settings(key,value) VALUES(?,?)] followed by [commit]. *)
Definition set_setting (c : conn) (key value : string) : conn :=
  commit (execute (fun d => set_settings (<[key := value]> (settings d)) d) c).

(** A run of [set_setting] calls, oldest first. *)
Definition set_settings_all (c : conn) (l : list (string * string)) : conn :=
  foldl (fun c kv => set_setting c (fst kv) (snd kv)) c l.

(** *** The passcode gate: [hash_pass], [ensure_passcode] *)

(** What the person at the keyboard and the runtime supply to one call of
    [ensure_passcode]: the answer to the yes/no question, the answer to the
    [i]-th [askstring] dialog ([None] when it is cancelled) and the value
    [secrets.token_hex(8)] returns. *)
Record dialogs := {
  askyesno : bool;
  askstring : nat -> option string;
  token_hex : string
}.

(** What a call of [ensure_passcode] leaves behind: its return value, the
    connection, and the answers the "Enter passcode" prompts received, in
    order. *)
Record passcode_result := {
  pr_ok : bool;
  pr_conn : conn;
  pr_entered : list (option string)
}.

Section Passcode.

(** [hashlib.sha256(s.encode("utf-8")).hexdigest()]. *)
Variable sha256_hex : string -> string.

Definition hash_pass (passcode salt : string) : string :=
  sha256_hex (salt +:+ passcode).

(** Python truthiness of an [Optional[str]]. *)
Definition truthy (o : option string) : bool :=
  match o with
  | None => false
  | Some s => negb (String.eqb s "")
  end.

(** [x or ""] for an [Optional[str]] [x]. *)
Definition or_empty (o : option string) : string :=
  match o with
  | None => ""
  | Some s => s
  end.

(** The [for _ in range(3)] loop, [n] rounds left, the next dialog being the
    [i]-th: the return value and the answers received. *)
Fixpoint enter_loop (ui : dialogs) (stored salt : string) (n i : nat)
  : bool * list (option string) :=
  match n with
  | O => (false, [])
  | S n' =>
      match askstring ui i with
      | None => (false, [None])
      | Some entered =>
          if String.eqb (hash_pass entered salt) stored
          then (true, [Some entered])
          else
            let '(b, tr) := enter_loop ui stored salt n' (S i) in
            (b, Some entered :: tr)
      end
  end.

(** The [while True] loop that creates a passcode, the next dialog being the
    [i]-th. It ends when the first prompt is cancelled or when both prompts
    agree; [None] stands for a dialogue still open after [fuel] rounds. *)
Fixpoint create_loop (ui : dialogs) (c : conn) (fuel i : nat) : option conn :=
  match fuel with
  | O => None
  | S fuel' =>
      match askstring ui i with
      | None => Some c
      | Some p1 =>
          if decide (askstring ui (S i) = Some p1)
          then
            let salt := token_hex ui in
            let c1 := set_setting c "pass_salt" salt in
            Some (set_setting c1 "pass_hash" (hash_pass p1 salt))
          else create_loop ui c fuel' (S (S i))
      end
  end.

(** [ensure_passcode]: [if not stored:] offers to create a passcode and lets
    the caller in; otherwise up to three prompts decide. *)
Definition ensure_passcode (ui : dialogs) (fuel : nat) (c : conn)
  : option passcode_result :=
  let stored := get_setting c "pass_hash" in
  if negb (truthy stored) then
    if askyesno ui then
      match create_loop ui c fuel 0 with
      | Some c' => Some {| pr_ok := true; pr_conn := c'; pr_entered := [] |}
      | None => None
      end
    else Some {| pr_ok := true; pr_conn := c; pr_entered := [] |}
  else
    let salt := or_empty (get_setting c "pass_salt") in
    let '(b, tr) := enter_loop ui (or_empty stored) salt 3 0 in
    Some {| pr_ok := b; pr_conn := c; pr_entered := tr |}.

(** An answer to the "Enter passcode" prompt that does not open the gate: a
    string whose hash differs from the stored one. *)
Definition wrong_entry (stored salt : string) (a : option string) : Prop :=
  ∃ p, a = Some p ∧ hash_pass p salt ≠ stored.

(** The round of [create_loop] that starts at dialog [i] ends the loop: its
    first prompt is cancelled, or its two prompts agree. *)
Definition round_closes (ui : dialogs) (i : nat) : Prop :=
  askstring ui i = None ∨ askstring ui (S i) = askstring ui i.

End Passcode.

(** *** Statements on the business tables *)

#[global] Instance table_name_eq_dec : EqDecision table_name.
Proof. solve_decision. Defined.

#[global] Instance table_name_countable : Countable table_name.
Proof.
  refine (inj_countable'
            (fun t => match t with
                      | companies => 0 | contacts => 1 | deals => 2
                      | activities => 3 | time_entries => 4 | invoices => 5
                      | invoice_items => 6
                      end%nat)
            (fun n => match n with
                      | 0 => companies | 1 => contacts | 2 => deals
                      | 3 => activities | 4 => time_entries | 5 => invoices
                      | _ => invoice_items
                      end%nat) _).
  by intros [].
Defined.

(** Modelled from the spec: the row-level capture that
    [gate_sync.ensure_change_tracking] may install on a table ([gate_sync] is
    imported by the program but is not part of its source file). Where a hook
    is installed on [t], every affected row adds one change record, within the
    statement and so within its transaction; where none is, nothing is
    written. *)
Definition fire (t : table_name) (op : operation) (ids : list Z) (d : db) : db :=
  if decide (t ∈ hooks d)
  then set_change_log
         (change_log d ++
          map (fun i => {| ch_table := t; ch_op := op; ch_rowid := i |}) ids) d
  else d.

Definition max_rowid (l : list (Z * row)) : Z :=
  foldr (fun p m => Z.max (fst p) m) 0 l.

(** The rowid [AUTOINCREMENT] gives the next inserted row: one more than the
    largest rowid the table holds or has ever held. *)
Definition next_rowid (x : table) : Z :=
  Z.max (last_id x) (max_rowid (rows x)) + 1.

(** [INSERT INTO t(...) VALUES(...)] with no [id] given; [cur.lastrowid] is
    [next_rowid] of the table before the statement. *)
Definition insert_row (t : table_name) (r : row) (d : db) : db :=
  let x := get_table t d in
  let i := next_rowid x in
  fire t op_insert [i]
    (set_table t {| rows := rows x ++ [(i, r)]; last_id := i |} d).

Definition lastrowid (t : table_name) (d : db) : Z :=
  next_rowid (get_table t d).

(** [UPDATE t SET ... WHERE id=?]: [f] rewrites the assigned columns. *)
Definition update_row (t : table_name) (i : Z) (f : row -> row) (d : db) : db :=
  let x := get_table t d in
  let hit := filter (fun p => fst p = i) (rows x) in
  fire t op_update (map fst hit)
    (set_table t
       {| rows := map (fun p => if decide (fst p = i) then (fst p, f (snd p)) else p)
                      (rows x);
          last_id := last_id x |} d).

(** [DELETE FROM t WHERE id=?]. [connect_db] never issues
    [PRAGMA foreign_keys=ON], so the [ON DELETE] clauses of the schema are not
    run and only the named table loses rows. *)
Definition delete_row (t : table_name) (i : Z) (d : db) : db :=
  let x := get_table t d in
  let hit := filter (fun p => fst p = i) (rows x) in
  fire t op_delete (map fst hit)
    (set_table t
       {| rows := filter (fun p => fst p ≠ i) (rows x);
          last_id := last_id x |} d).

(** The rowids a table holds. *)
Definition rowids (t : table_name) (d : db) : list Z :=
  map fst (rows (get_table t d)).

(** One record of [csv.DictReader]: header name to field; a field the line
    does not have reads as [None]. *)
Abbreviation csv_record := (gmap string string).

(** What reading a file with [csv.DictReader] gives: the records it yields,
    in order, and whether the read then reaches the end of the file or
    raises (a byte that is not UTF-8, a field over the size limit of the
    [csv] module). *)
Record csv_read := {
  yielded : list csv_record;
  raises : bool
}.

(** The file of an import: the dialog was cancelled, or [open] raises on the
    path, or the file is opened and read. *)
Inductive chosen_file :=
  | no_path
  | unopened
  | opened (r : csv_read).

(** A file that is read to its end. *)
Definition whole_file (l : list csv_record) : chosen_file :=
  opened {| yielded := l; raises := false |}.

Section Editing.

(** [str.strip] of the Python runtime. *)
Variable strip : string -> string.

(** [DATE('now')] as SQLite evaluates it while the statement runs. *)
Variable today : string.

(** *** [CompaniesTab] *)

(** The form variables of the companies tab; [var_id] is empty or shows the
    [id] of the selected row. *)
Record company_form := {
  var_id : option Z;
  var_name : string;
  var_phone : string;
  var_email : string;
  var_website : string;
  txt_address : string
}.

(** The row [INSERT INTO companies(name, phone, email, website, address)]
    stores; [created_at] takes its default. *)
Definition company_row (name : string) (phone email website address : value) : row :=
  <["name" := VText name]>
    (<["phone" := phone]>
      (<["email" := email]>
        (<["website" := website]>
          (<["address" := address]>
            (<["created_at" := VText today]> ∅))))).

(** [UPDATE companies SET name=?, phone=?, email=?, website=?, address=?]. *)
Definition company_update (name phone email website address : string) (r : row) : row :=
  <["name" := VText name]>
    (<["phone" := VText phone]>
      (<["email" := VText email]>
        (<["website" := VText website]>
          (<["address" := VText address]> r)))).

(** [CompaniesTab.on_save]: the form afterwards and the connection. *)
Definition CompaniesTab_on_save (f : company_form) (c : conn) : company_form * conn :=
  let name := strip (var_name f) in
  if String.eqb name "" then (f, c)
  else
    let phone := strip (var_phone f) in
    let email := strip (var_email f) in
    let website := strip (var_website f) in
    let address := strip (txt_address f) in
    match var_id f with
    | Some i =>
        (f, commit (execute
                      (update_row companies i
                         (company_update name phone email website address)) c))
    | None =>
        let i := lastrowid companies (pending c) in
        ({| var_id := Some i; var_name := var_name f; var_phone := var_phone f;
            var_email := var_email f; var_website := var_website f;
            txt_address := txt_address f |},
         commit (execute
                   (insert_row companies
                      (company_row name (VText phone) (VText email)
                         (VText website) (VText address))) c))
    end.

(** [CompaniesTab.on_delete]; [confirm] is the answer to the yes/no box, and
    [on_new] empties [var_id]. *)
Definition CompaniesTab_on_delete (id : option Z) (confirm : bool) (c : conn)
  : option Z * conn :=
  match id with
  | None => (id, c)
  | Some i =>
      if confirm
      then (None, commit (execute (delete_row companies i) c))
      else (id, c)
  end.

(** *** [DealsTab] *)

(** [DealsTab.on_delete]. *)
Definition DealsTab_on_delete (id : option Z) (confirm : bool) (c : conn)
  : option Z * conn :=
  match id with
  | None => (id, c)
  | Some i =>
      if confirm
      then (None, commit (execute (delete_row deals i) c))
      else (id, c)
  end.

(** *** CSV import: [ask_import_csv] *)

(** [a or b or ''] on two [Optional[str]]. *)
Definition first_of (a b : option string) : string :=
  if truthy a then or_empty a
  else if truthy b then or_empty b
  else "".

(** [(r.get('name') or r.get('Name') or '').strip()]. *)
Definition csv_name (r : csv_record) : string :=
  strip (first_of (r !! "name") (r !! "Name")).

(** [(r.get('company') or r.get('Company') or '').strip()]. *)
Definition csv_company (r : csv_record) : string :=
  strip (first_of (r !! "company") (r !! "Company")).

(** The records the loops do not skip: those with a name. *)
Definition named (r : csv_record) : bool := negb (String.eqb (csv_name r) "").

(** [SELECT id FROM companies WHERE name=?] and [fetchone]. *)
Definition find_company (name : string) (d : db) : option Z :=
  fst <$> find (fun p => match snd p !! "name" with
                         | Some (VText s) => String.eqb s name
                         | _ => false
                         end)
               (rows (t_companies d)).

(** The row [INSERT INTO contacts(company_id, name, title, email, phone)]
    stores. *)
Definition contact_row (company_id : option Z) (name title email phone : string) : row :=
  <["company_id" := match company_id with Some i => VInt i | None => VNull end]>
    (<["name" := VText name]>
      (<["title" := VText title]>
        (<["email" := VText email]>
          (<["phone" := VText phone]> ∅)))).

(** One turn of the [for r in reader] loop of the companies branch: the
    database and the counter [added]. *)
Definition import_company (st : db * nat) (r : csv_record) : db * nat :=
  let '(d, added) := st in
  let name := csv_name r in
  if String.eqb name "" then (d, added)
  else
    (insert_row companies
       (company_row name
          (VText (or_empty (r !! "phone"))) (VText (or_empty (r !! "email")))
          (VText (or_empty (r !! "website"))) (VText (or_empty (r !! "address"))))
       d,
     S added).

(** The company a contact record names: none, an existing one, or a new row
    [INSERT INTO companies(name) VALUES(?)] whose other columns are [NULL]. *)
Definition resolve_company (company : string) (d : db) : db * option Z :=
  if String.eqb company "" then (d, None)
  else
    match find_company company d with
    | Some i => (d, Some i)
    | None =>
        (insert_row companies
           (company_row company VNull VNull VNull VNull) d,
         Some (lastrowid companies d))
    end.

(** One turn of the loop of the contacts branch. *)
Definition import_contact (st : db * nat) (r : csv_record) : db * nat :=
  let '(d, added) := st in
  let name := csv_name r in
  if String.eqb name "" then (d, added)
  else
    let company := csv_company r in
    let '(d1, company_id) := resolve_company company d in
    (insert_row contacts
       (contact_row company_id name
          (or_empty (r !! "title")) (or_empty (r !! "email"))
          (or_empty (r !! "phone")))
       d1,
     S added).

(** A [for r in reader] loop with the [conn.commit()] and the message box
    after it. The rows are inserted while the file is read: when the read
    raises, the rows of the records read before are in the connection's view,
    nothing is committed, and the exception leaves the handler before the
    message box. *)
Definition read_into (turn : db * nat -> csv_record -> db * nat) (r : csv_read)
    (c : conn) : conn * option nat :=
  let '(d, added) := foldl turn (pending c, O) (yielded r) in
  if raises r
  then ({| pending := d; stored := stored c |}, None)
  else (commit {| pending := d; stored := stored c |}, Some added).

(** [ask_import_csv]. The result is the connection and the count shown in
    the final message box, [None] when the handler ends without the box:
    after a cancelled dialog or by an exception. With a [kind] that is
    neither of the two, the file is opened and not read. *)
Definition ask_import_csv (kind : string) (file : chosen_file) (c : conn)
  : conn * option nat :=
  match file with
  | no_path | unopened => (c, None)
  | opened r =>
      if String.eqb kind "companies" then read_into import_company r c
      else if String.eqb kind "contacts" then read_into import_contact r c
      else (commit c, Some O)
  end.

End Editing.

(** *** Concrete stand-ins for the runtime, for running the definitions *)

(** A stand-in for the digest. *)
Definition toy_digest (s : string) : string := "#" +:+ s.

(** Someone who types [p] into every dialog and declines nothing. *)
Definition typist (p : string) : dialogs :=
  {| askyesno := true; askstring := fun _ => Some p; token_hex := "a1b2c3d4e5f60718" |}.

(** [str.isspace] on the ASCII range. *)
Definition ascii_space (x : ascii) : bool :=
  match x with
  | "009" | "010" | "011" | "012" | "013"
  | "028" | "029" | "030" | "031" | " " => true
  | _ => false
  end%char.

Fixpoint lstrip (s : string) : string :=
  match s with
  | EmptyString => EmptyString
  | String a s' => if ascii_space a then lstrip s' else s
  end.

(** [str.strip] on ASCII text. *)
Definition ascii_strip (s : string) : string :=
  String.rev (lstrip (String.rev (lstrip s))).

(** A companies form with only the name filled in and no row selected. *)
Definition new_company (name : string) : company_form :=
  {| var_id := None; var_name := name; var_phone := ""; var_email := "";
     var_website := ""; txt_address := "" |}.

(** A contacts file of three lines: two contacts of one company, and a line
    with a blank name between them. *)
Definition contacts_csv : list csv_record :=
  [ {["name" := "Ann"; "company" := "Acme"]};
    {["name" := "  "; "company" := "Bolt"]};
    {["Name" := "Bob "; "Company" := " Acme"]} ].

(** *** The sync module as the program binds it *)

(** The four names [from gate_sync import (...)] asks for; each takes the
    connection (and the window). *)
Record gate_sync := {
  gs_ensure_change_tracking : conn -> conn;
  gs_export_changes_dialog : conn -> conn;
  gs_import_pack_dialog : conn -> conn;
  gs_init_device_settings_dialog : conn -> conn
}.

(** The module-level names after the [try]/[except] around the import. *)
Record sync_names := {
  ensure_change_tracking : option (conn -> conn);
  export_changes_dialog : option (conn -> conn);
  import_pack_dialog : option (conn -> conn);
  init_device_settings_dialog : option (conn -> conn)
}.

(** [m] is [None] when the import raises: then [except Exception] sets all
    four names to [None]. *)
Definition import_gate_sync (m : option gate_sync) : sync_names :=
  match m with
  | Some g =>
      {| ensure_change_tracking := Some (gs_ensure_change_tracking g);
         export_changes_dialog := Some (gs_export_changes_dialog g);
         import_pack_dialog := Some (gs_import_pack_dialog g);
         init_device_settings_dialog := Some (gs_init_device_settings_dialog g) |}
  | None =>
      {| ensure_change_tracking := None;
         export_changes_dialog := None;
         import_pack_dialog := None;
         init_device_settings_dialog := None |}
  end.

(** [GateMiniCRMApp.__init__], as far as the store goes. *)
Definition GateMiniCRMApp_init (names : sync_names) (file : db) : conn :=
  let c := connect_db file in
  match ensure_change_tracking names with
  | Some f => f c
  | None => c
  end.

(** The entries of the Sync menu built by [create_menu]. *)
Inductive sync_command :=
  | SetDeviceId
  | ExportSyncPack
  | ImportSyncPack.

Definition sync_entry (names : sync_names) (cmd : sync_command) : option (conn -> conn) :=
  match cmd with
  | SetDeviceId => init_device_settings_dialog names
  | ExportSyncPack => export_changes_dialog names
  | ImportSyncPack => import_pack_dialog names
  end.

(** Choosing a Sync menu entry: [f(self.conn, self.master) if f else None]. *)
Definition run_sync_command (names : sync_names) (cmd : sync_command) (c : conn) : conn :=
  match sync_entry names cmd with
  | Some f => f c
  | None => c
  end.

(** *** Reading rows back *)

(** [SELECT * FROM t WHERE id=?] and [fetchone]. *)
Definition select_by_id (t : table_name) (i : Z) (d : db) : option row :=
  snd <$> find (fun p => bool_decide (fst p = i)) (rows (get_table t d)).

(** The value of column [col] of the row of [t] with id [i]. *)
Definition column_of (t : table_name) (i : Z) (col : string) (d : db) : option value :=
  select_by_id t i d ≫= fun r => r !! col.

Section Selecting.

(** The text a Tk variable holds after [set] with a value that is not a
    [str]. The text columns of the store only hold text or [NULL]. *)
Variable tk_str : value -> string.

(** [var.set(r[col])]. *)
Definition shown (v : option value) : string :=
  match v with
  | Some (VText s) => s
  | Some v => tk_str v
  | None => tk_str VNull
  end.

(** [var.set(r[col] or "")]. *)
Definition shown_or_empty (v : option value) : string :=
  match v with
  | Some (VText s) => s
  | Some VNull | None => ""
  | Some (VInt n) => if Z.eqb n 0 then "" else tk_str (VInt n)
  | Some (VReal x) => if PrimFloat.eqb x PrimFloat.zero then "" else tk_str (VReal x)
  end.

(** [CompaniesTab.on_select]: [sel] is the focused line of the list, if any;
    the form is filled from the row with that id, and left alone when there
    is no such row. *)
Definition CompaniesTab_on_select (sel : option Z) (f : company_form) (c : conn)
  : company_form :=
  match sel with
  | None => f
  | Some i =>
      match select_by_id companies i (pending c) with
      | None => f
      | Some r =>
          {| var_id := Some i;
             var_name := shown (r !! "name");
             var_phone := shown_or_empty (r !! "phone");
             var_email := shown_or_empty (r !! "email");
             var_website := shown_or_empty (r !! "website");
             txt_address := shown_or_empty (r !! "address") |}
      end
  end.

End Selecting.

(** The form as [on_save] stores it: every field stripped. *)
Definition stripped (strip : string -> string) (id : option Z) (f : company_form)
  : company_form :=
  {| var_id := id; var_name := strip (var_name f);
     var_phone := strip (var_phone f); var_email := strip (var_email f);
     var_website := strip (var_website f); txt_address := strip (txt_address f) |}.

(** *** What the store keeps *)

(** The ids of a table are distinct and none is beyond the counter that
    [AUTOINCREMENT] keeps for it. *)
Definition table_ok (x : table) : Prop :=
  NoDup (map fst (rows x)) ∧ Forall (fun i => i <= last_id x) (map fst (rows x)).

Definition store_ok (d : db) : Prop := ∀ t, table_ok (get_table t d).

(** Every company has a name that is a non-empty text. *)
Definition companies_named (d : db) : Prop :=
  Forall (fun p => ∃ s, snd p !! "name" = Some (VText s) ∧ s ≠ "")
         (rows (t_companies d)).

(** The names of the companies, in storage order. *)
Definition company_names (d : db) : list (option value) :=
  map (fun p => snd p !! "name") (rows (t_companies d)).

(** *** Combobox entries *)

(** [str(i)] of an [int]: decimal digits, after a minus sign when negative. *)
Definition py_str (i : Z) : string := NilZero.string_of_int (Z.to_int i).

(** [f"{id} - {label}"], an entry of [company_options] and its like. *)
Definition option_text (i : Z) (label : string) : string :=
  py_str i +:+ " - " +:+ label.

(** [s.split(" - ")[0]]: the text before the first [" - "], and all of [s]
    when it has none. *)
Fixpoint before_sep (s : string) : string :=
  match s with
  | EmptyString => EmptyString
  | String a s' =>
      if String.prefix " - " s then EmptyString else String a (before_sep s')
  end.

(** The text has no space in it. *)
Fixpoint spaceless (s : string) : bool :=
  match s with
  | EmptyString => true
  | String a s' => negb (Ascii.eqb a " ") && spaceless s'
  end.

(** Python truthiness of a value read from a row. *)
Definition value_truthy (v : value) : bool :=
  match v with
  | VNull => false
  | VInt n => negb (Z.eqb n 0)
  | VReal x => negb (PrimFloat.eqb x PrimFloat.zero)
  | VText s => negb (String.eqb s "")
  end.

(** [int] as the stand-in parser of decimal numerals, for running the
    definitions: it reads what [py_str] writes. *)
Definition decimal_int (s : string) : option Z :=
  Z.of_int <$> NilZero.int_of_string s.

(** *** Binding parameters *)

(** The whole numbers [sqlite3] binds: those of 64 bits with a sign. For any
    other [int], [execute] raises [OverflowError] before the statement
    runs. *)
Definition sqlite_int (n : Z) : bool := (- 2 ^ 63 <=? n) && (n <? 2 ^ 63).

(** An [int] or [None] parameter that can be bound. *)
Definition bindable (o : option Z) : bool :=
  match o with
  | Some n => sqlite_int n
  | None => true
  end.

(** *** [ContactsTab] *)

Module ContactsTab.

(** The form variables of the contacts tab; [company_cb] is the text of the
    company combobox. *)
Record form := {
  var_id : option Z;
  var_name : string;
  var_title : string;
  var_email : string;
  var_phone : string;
  company_cb : string
}.

Section Paths.

Variable strip : string -> string.

(** [int(s)] of the Python runtime; [None] when it raises. *)
Variable py_int : string -> option Z.

(** The text Tk holds for a value that is not a [str]. *)
Variable tk_str : value -> string.

(** [str(v)] of a value that is not a [str], as an f-string formats it. *)
Variable fmt_str : value -> string.

(** [f"{v}"] of a value read from a row. *)
Definition formatted (v : option value) : string :=
  match v with
  | Some (VText s) => s
  | Some v' => fmt_str v'
  | None => fmt_str VNull
  end.

(** [int(text.split(" - ")[0])] inside [try]/[except Exception]; [None] is
    what the [except] branch leaves. *)
Definition leading_id (text : string) : option Z := py_int (before_sep text).

(** The [company_id] that [on_save] binds. *)
Definition chosen_company (f : form) : option Z :=
  if String.eqb (company_cb f) "" then None else leading_id (company_cb f).

(** [UPDATE contacts SET name=?, title=?, email=?, phone=?, company_id=?]. *)
Definition contact_update (name title email phone : string) (company_id : option Z)
    (r : row) : row :=
  <["name" := VText name]>
    (<["title" := VText title]>
      (<["email" := VText email]>
        (<["phone" := VText phone]>
          (<["company_id" := match company_id with
                             | Some i => VInt i
                             | None => VNull
                             end]> r)))).

(** [ContactsTab.on_save]. With no name it warns and returns; with a
    [company_id] that cannot be bound, [execute] raises and the handler ends
    there: in both cases the form and the connection are as they were. *)
Definition on_save (f : form) (c : conn) : form * conn :=
  let name := strip (var_name f) in
  if String.eqb name "" then (f, c)
  else
    let title := strip (var_title f) in
    let email := strip (var_email f) in
    let phone := strip (var_phone f) in
    let company_id := chosen_company f in
    if negb (bindable company_id) then (f, c)
    else
    match var_id f with
    | Some i =>
        (f, commit (execute
                      (update_row contacts i
                         (contact_update name title email phone company_id)) c))
    | None =>
        let i := lastrowid contacts (pending c) in
        ({| var_id := Some i; var_name := var_name f; var_title := var_title f;
            var_email := var_email f; var_phone := var_phone f;
            company_cb := company_cb f |},
         commit (execute
                   (insert_row contacts
                      (contact_row company_id name title email phone)) c))
    end.

(** The text [on_select] puts into the company combobox for the value of
    [company_id]: empty when the value is falsy, the id and the name of the
    company otherwise. [None] stands for the exception raised when
    [fetchone()] finds no company and the result is indexed. *)
Definition company_entry (v : option value) (d : db) : option string :=
  match v with
  | Some (VInt n) =>
      if Z.eqb n 0 then Some ""
      else
        match select_by_id companies n d with
        | Some r => Some (option_text n (formatted (r !! "name")))
        | None => None
        end
  | Some v' => if value_truthy v' then None else Some ""
  | None => Some ""
  end.

(** [ContactsTab.on_select]: the form afterwards, or [None] when the handler
    raises. *)
Definition on_select (sel : option Z) (f : form) (c : conn) : option form :=
  match sel with
  | None => Some f
  | Some i =>
      match select_by_id contacts i (pending c) with
      | None => Some f
      | Some r =>
          match company_entry (r !! "company_id") (pending c) with
          | Some text =>
              Some {| var_id := Some i;
                      var_name := shown tk_str (r !! "name");
                      var_title := shown_or_empty tk_str (r !! "title");
                      var_email := shown_or_empty tk_str (r !! "email");
                      var_phone := shown_or_empty tk_str (r !! "phone");
                      company_cb := text |}
          | None => None
          end
      end
  end.

(** [ContactsTab.on_delete]. *)
Definition on_delete (id : option Z) (confirm : bool) (c : conn) : option Z * conn :=
  match id with
  | None => (id, c)
  | Some i =>
      if confirm
      then (None, commit (execute (delete_row contacts i) c))
      else (id, c)
  end.

End Paths.

End ContactsTab.

(** *** CSV export: [ask_export_csv], [export_companies] *)

(** A CSV file as [csv.writer] writes it and [csv.reader] parses it: its
    rows, each a list of fields. *)
Abbreviation csv_file := (list (list string)).

(** [csv.field_size_limit()], which the program leaves at its default: the
    reader raises on a field with more characters. *)
Definition field_size_limit : Z := 131072.

(** The record [csv.DictReader] makes of one row: [dict(zip(fieldnames,
    row))], so that a name that occurs twice keeps its last field and fields
    beyond the names are not reachable by name; then every name at a position
    the row does not reach is set to [None], also when an earlier position
    had given it a field. *)
Definition record_of (fieldnames fields : list string) : csv_record :=
  foldl (fun m h => delete h m)
    (foldl (fun m kv => <[fst kv := snd kv]> m) ∅ (zip fieldnames fields))
    (drop (length fields) fieldnames).

Section Reading.

(** [len(s)]: the number of characters of a text. *)
Variable py_len : string -> Z.

Definition oversized (fields : list string) : bool :=
  existsb (fun s => field_size_limit <? py_len s) fields.

(** The rows after the first: a row with an oversized field ends the read
    with an exception, an empty row is skipped, every other row becomes a
    record. *)
Fixpoint read_rows (fieldnames : list string) (body : list (list string)) : csv_read :=
  match body with
  | [] => {| yielded := []; raises := false |}
  | fields :: rest =>
      if oversized fields then {| yielded := []; raises := true |}
      else
        let r := read_rows fieldnames rest in
        match fields with
        | [] => r
        | _ :: _ =>
            {| yielded := record_of fieldnames fields :: yielded r;
               raises := raises r |}
        end
  end.

(** [csv.DictReader] iterated to the end or to its exception: the first row
    gives the field names. *)
Definition dict_reader (file : csv_file) : csv_read :=
  match file with
  | [] => {| yielded := []; raises := false |}
  | fieldnames :: body =>
      if oversized fieldnames then {| yielded := []; raises := true |}
      else read_rows fieldnames body
  end.

End Reading.

(** The company [import_company] stores for a record. *)
Definition company_of_record (strip : string -> string) (today : string)
    (r : csv_record) : row :=
  company_row today (csv_name strip r)
    (VText (or_empty (r !! "phone"))) (VText (or_empty (r !! "email")))
    (VText (or_empty (r !! "website"))) (VText (or_empty (r !! "address"))).

Section Exporting.

(** [repr(x)] of a [float], which [csv.writer] writes for it. *)
Variable repr_float : float -> string.

(** [len(s)]: the number of characters of a text. *)
Variable py_len : string -> Z.

(** What [csv.writer] writes for the object [r.get(h, "")]: nothing for
    [None] and for a missing key, a text as it is, [str] of a number. *)
Definition csv_field (v : option value) : string :=
  match v with
  | None => ""
  | Some VNull => ""
  | Some (VText s) => s
  | Some (VInt n) => py_str n
  | Some (VReal x) => repr_float x
  end.

(** [ask_export_csv]: [path] tells whether a file was chosen. The result is
    the file written and the count shown in the message box. *)
Definition ask_export_csv (headers : list string) (rows : list (gmap string value))
    (path : bool) : option (csv_file * nat) :=
  if path
  then Some (headers :: map (fun r => map (fun h => csv_field (r !! h)) headers) rows,
             length rows)
  else None.

(** [dict(r)] for a row of a [SELECT] of the columns [cols]: [id] is the
    rowid. *)
Definition row_dict (cols : list string) (p : Z * row) : gmap string value :=
  foldl (fun m h =>
           <[h := if String.eqb h "id" then VInt (fst p)
                  else default VNull (snd p !! h)]> m)
        ∅ cols.

(** The columns of the query in [export_companies], which are the keys of
    each [dict(r)] and the fallback header alike. *)
Definition company_columns : list string :=
  ["id"; "name"; "phone"; "email"; "website"; "address"; "created_at"].

(** [export_companies]: [fetched] is what [cur.fetchall()] returned for
    [SELECT id, name, phone, email, website, address, created_at FROM
    companies ORDER BY name]. *)
Definition export_companies (fetched : list (Z * row)) (path : bool)
  : option (csv_file * nat) :=
  let rows := map (row_dict company_columns) fetched in
  ask_export_csv company_columns rows path.

(** The company that comes back when an exported company is imported. *)
Definition reimported (strip : string -> string) (today : string) (p : Z * row) : row :=
  company_row today (strip (csv_field (snd p !! "name")))
    (VText (csv_field (snd p !! "phone"))) (VText (csv_field (snd p !! "email")))
    (VText (csv_field (snd p !! "website"))) (VText (csv_field (snd p !! "address"))).

(** The exported companies an import keeps: those with a name. *)
Definition kept (strip : string -> string) (p : Z * row) : bool :=
  negb (String.eqb (strip (csv_field (snd p !! "name"))) "").

(** The line [export_companies] writes for the row [p]. *)
Definition exported_line (p : Z * row) : list string :=
  map (fun h => csv_field (row_dict company_columns p !! h)) company_columns.

(** The record [csv.DictReader] makes of that line. *)
Definition exported_record (p : Z * row) : csv_record :=
  record_of company_columns (exported_line p).

(** The exported rows a reader gets through: those before the first row
    whose line has an oversized field. *)
Fixpoint read_back (fetched : list (Z * row)) : list (Z * row) :=
  match fetched with
  | [] => []
  | p :: l => if oversized py_len (exported_line p) then [] else p :: read_back l
  end.

End Exporting.

(** *** [DealsTab.on_save] *)

Module DealsTab.

(** The form variables of the deals tab; [company_cb] and [contact_cb] are
    the texts of the two comboboxes. *)
Record form := {
  var_id : option Z;
  var_title : string;
  var_value : string;
  stage_cb : string;
  var_created : string;
  var_close : string;
  txt_notes : string;
  company_cb : string;
  contact_cb : string
}.

(** How a call of [on_save] ends: with the row stored, with a warning box and
    nothing done, or with an exception that [execute] raises. *)
Inductive outcome :=
  | saved
  | warned (message : string)
  | raised (exception : string).

Section Paths.

Variable strip : string -> string.

(** [int(s)] and [float(s)] of the Python runtime; [None] when they raise. *)
Variable py_int : string -> option Z.
Variable py_float : string -> option float.

(** [date.today().strftime(DATE_FMT)]. *)
Variable date_today : string.

(** [x or y] on texts. *)
Definition or_text (x y : string) : string :=
  if String.eqb x "" then y else x.

(** [float(self.var_value.get().strip() or 0)]. *)
Definition parsed_value (f : form) : option float :=
  if String.eqb (strip (var_value f)) "" then Some PrimFloat.zero
  else py_float (strip (var_value f)).

(** [int(self.company_cb.get().split(" - ")[0])], [None] after the
    [except]. *)
Definition parsed_company (f : form) : option Z := py_int (before_sep (company_cb f)).

(** The [contact_id] bound: looked for only when the combobox holds text. *)
Definition parsed_contact (f : form) : option Z :=
  if String.eqb (contact_cb f) "" then None else py_int (before_sep (contact_cb f)).

Definition null_or_int (o : option Z) : value :=
  match o with Some i => VInt i | None => VNull end.

Definition null_or_text (s : string) : value :=
  if String.eqb s "" then VNull else VText s.

(** The columns [on_save] binds, in a row that may hold others. *)
Definition deal_columns (company_id : Z) (f : form) (value : float) (r : row) : row :=
  <["company_id" := VInt company_id]>
    (<["contact_id" := null_or_int (parsed_contact f)]>
      (<["title" := VText (strip (var_title f))]>
        (<["value" := VReal value]>
          (<["stage" := VText (or_text (stage_cb f) "Lead")]>
            (<["created_at" := VText (or_text (strip (var_created f)) date_today)]>
              (<["close_date" := null_or_text (strip (var_close f))]>
                (<["notes" := VText (strip (txt_notes f))]> r))))))).

(** [DealsTab.on_save]. [execute] raises [OverflowError] when an id cannot
    be bound, and [IntegrityError] when the value is not a number (NaN), which
    SQLite binds as [NULL], and a row would get it in the [NOT NULL] column
    [value]; the statement then changes nothing and the handler ends
    there. *)
Definition on_save (f : form) (c : conn) : outcome * form * conn :=
  if String.eqb (strip (var_title f)) ""
  then (warned "Deal title is required", f, c)
  else
    match parsed_value f with
    | None => (warned "Value must be a number", f, c)
    | Some value =>
        match parsed_company f with
        | None | Some 0 => (warned "Company is required", f, c)
        | Some company_id =>
            if negb (sqlite_int company_id && bindable (parsed_contact f))
            then (raised "OverflowError", f, c)
            else
            match var_id f with
            | Some i =>
                if PrimFloat.is_nan value
                   && bool_decide (i ∈ rowids deals (pending c))
                then (raised "IntegrityError", f, c)
                else
                (saved, f,
                 commit (execute
                           (update_row deals i (deal_columns company_id f value)) c))
            | None =>
                if PrimFloat.is_nan value
                then (raised "IntegrityError", f, c)
                else
                let i := lastrowid deals (pending c) in
                (saved,
                 {| var_id := Some i; var_title := var_title f;
                    var_value := var_value f; stage_cb := stage_cb f;
                    var_created := var_created f; var_close := var_close f;
                    txt_notes := txt_notes f; company_cb := company_cb f;
                    contact_cb := contact_cb f |},
                 commit (execute
                           (insert_row deals (deal_columns company_id f value ∅)) c))
            end
        end
    end.

End Paths.

End DealsTab.

(** Every deal has a title that is a non-empty text and a company id that is
    a whole number other than 0. *)
Definition deals_valid (d : db) : Prop :=
  Forall (fun p => (∃ s, snd p !! "title" = Some (VText s) ∧ s ≠ "")
                   ∧ (∃ n, snd p !! "company_id" = Some (VInt n) ∧ n ≠ 0))
         (rows (t_deals d)).

(** [DealsTab.refresh] fills the tree from [deals d JOIN companies co ON
    d.company_id = co.id]: a deal is in it when a company has the id that its
    [company_id] holds. *)
Definition deal_listed (d : db) (p : Z * row) : bool :=
  match snd p !! "company_id" with
  | Some (VInt n) => bool_decide (n ∈ rowids companies d)
  | _ => false
  end.

(** The ids of the deals in the tree after [DealsTab.refresh], in storage
    order (the tree has them by [created_at]). *)
Definition listed_deals (d : db) : list Z :=
  map fst (List.filter (deal_listed d) (rows (t_deals d))).

(** *** [InvoicesTab]: the items of an invoice *)

Module InvoicesTab.

(** How a call of [add_item] or [edit_item] ends. [dismissed] is a return
    with no message. *)
Inductive outcome :=
  | stored_item
  | dismissed
  | informed (message : string)
  | warned (message : string)
  | raised (exception : string).

Section Items.

(** [float(s)] of the Python runtime; [None] when it raises. *)
Variable py_float : string -> option float.

(** [float(answer or default)] for the answer of [askstring], which is
    [None] when the dialog was cancelled. *)
Definition number_or (default : float) (answer : option string) : option float :=
  match answer with
  | None => Some default
  | Some s => if String.eqb s "" then Some default else py_float s
  end.

(** The columns [edit_item] assigns; [add_item] binds them, with the
    invoice, for a new row. *)
Definition item_columns (desc : string) (qty price : float) (r : row) : row :=
  <["description" := VText desc]>
    (<["qty" := VReal qty]> (<["unit_price" := VReal price]> r)).

Definition item_row (invoice : Z) (desc : string) (qty price : float) : row :=
  <["invoice_id" := VInt invoice]> (item_columns desc qty price ∅).

(** [InvoicesTab.add_item]: [var_id] is the invoice of the form; [desc], [q]
    and [p] are the answers to the three dialogs. A quantity or price that is
    not a number (NaN) is bound as [NULL] and the [NOT NULL] column refuses
    it. *)
Definition add_item (var_id : option Z) (desc q p : option string) (c : conn)
  : outcome * conn :=
  match var_id with
  | None => (informed "Save the invoice first, then add items.", c)
  | Some invoice =>
      match desc with
      | None | Some EmptyString => (dismissed, c)
      | Some text =>
          match number_or PrimFloat.one q, number_or PrimFloat.zero p with
          | Some qty, Some price =>
              if PrimFloat.is_nan qty || PrimFloat.is_nan price
              then (raised "IntegrityError", c)
              else (stored_item,
                    commit (execute
                              (insert_row invoice_items
                                 (item_row invoice text qty price)) c))
          | _, _ => (warned "Qty and Unit price must be numbers", c)
          end
      end
  end.

(** [InvoicesTab.edit_item]: [sel] is the item that has the focus in the
    tree. *)
Definition edit_item (sel : option Z) (desc q p : option string) (c : conn)
  : outcome * conn :=
  match sel with
  | None => (dismissed, c)
  | Some i =>
      match select_by_id invoice_items i (pending c) with
      | None => (dismissed, c)
      | Some _ =>
          match desc with
          | None => (dismissed, c)
          | Some text =>
              match number_or PrimFloat.one q, number_or PrimFloat.zero p with
              | Some qty, Some price =>
                  if PrimFloat.is_nan qty || PrimFloat.is_nan price
                  then (raised "IntegrityError", c)
                  else (stored_item,
                        commit (execute
                                  (update_row invoice_items i
                                     (item_columns text qty price)) c))
              | _, _ => (warned "Qty and Unit price must be numbers", c)
              end
          end
      end
  end.

(** [InvoicesTab.delete_item]. *)
Definition delete_item (sel : option Z) (confirm : bool) (c : conn) : conn :=
  match sel with
  | None => c
  | Some i => if confirm then commit (execute (delete_row invoice_items i) c) else c
  end.

End Items.

End InvoicesTab.

(** Every item of an invoice has a description that is a non-empty text. *)
Definition items_described (d : db) : Prop :=
  Forall (fun p => ∃ s, snd p !! "description" = Some (VText s) ∧ s ≠ "")
         (rows (t_invoice_items d)).

(** Going from [d] to [d']: the companies and the contacts of [d] are still
    there, unchanged and in place, with rows added after them at most; the
    settings and every other table are the same. *)
Definition only_appends (d d' : db) : Prop :=
  rows (t_companies d) `prefix_of` rows (t_companies d')
  ∧ rows (t_contacts d) `prefix_of` rows (t_contacts d')
  ∧ settings d' = settings d
  ∧ ∀ t, t ≠ companies -> t ≠ contacts -> get_table t d' = get_table t d.

End App.

(** ** The sync engine: [gate_sync]

    [GateMiniCRM.py] imports its sync engine from a module [gate_sync] whose
    source is not in the program file. This module is that engine as the
    specification describes it (sections 3, 4 and 6). *)

Module GateSync.

(** Modelled from the spec: a value of [changed_fields]. The specification
    leaves the value type open; a pack line carries null, whole numbers and
    text. *)
Inductive value :=
  | Null
  | Int (n : Z)
  | Text (s : string).

#[global] Instance value_eq_dec : EqDecision value.
Proof. solve_decision. Defined.

(** Modelled from the spec: the Change Record of section 3, with the field
    names of the pack line of section 6. [row_key] is the device-independent
    identifier of the row. *)
Record change_record := {
  device_id : string;
  sequence : Z;
  table : App.table_name;
  row_key : string;
  operation : App.operation;
  changed_fields : gmap string value;
  timestamp : Z;
  origin_device_id : string;
  origin_sequence : Z
}.

(** Modelled from the spec: the Pack of sections 3 and 6, a header line and
    the Change Records read from the lines after it. *)
Record pack := {
  pack_device_id : string;
  from_sequence : Z;
  to_sequence : Z;
  record_count : nat;
  records : list change_record
}.

(** Modelled from the spec: the comparison key of the conflict rule of
    section 4.4, [(timestamp, device_id)]. *)
Abbreviation stamp := (Z * string)%type.

(** Modelled from the spec: a local row of a tracked table, its columns and,
    for each column, the key of the change that wrote it last. *)
Record entry := {
  fields : gmap string value;
  written : gmap string stamp
}.

(** Modelled from the spec: the local state of one installation. Identity
    ([my_device_id], [local_sequence]), the tracked rows by table and row
    key, the append-only change log, and the watermark per peer device. *)
Record state := {
  my_device_id : string;
  local_sequence : Z;
  store : gmap (App.table_name * string) entry;
  log : list change_record;
  watermarks : gmap string Z
}.

(** Modelled from the spec: the MergeReport of section 4.4. [applied] counts
    the records applied, [conflicts] lists the rows of the records skipped as
    conflicts, [violations] the records skipped for a missing parent row. *)
Record merge_report := {
  applied : nat;
  conflicts : list (App.table_name * string);
  violations : list change_record;
  new_watermark : option Z
}.

(** Modelled from the spec: the error taxonomy of section 7. *)
Inductive error :=
  | ConfigurationError
  | CaptureError
  | MalformedPackError.

(** Modelled from the spec: a record as a device [dev] writes it itself, numbered [n], at time [ts];
    its origin is itself (section 6). *)
Definition written_by (dev : string) (n : Z) (t : App.table_name) (k : string)
    (op : App.operation) (ch : gmap string value) (ts : Z) : change_record :=
  {| device_id := dev; sequence := n; table := t; row_key := k; operation := op;
     changed_fields := ch; timestamp := ts;
     origin_device_id := dev; origin_sequence := n |}.

(** *** Identity and capture *)

(** Modelled from the spec: the state with another store. *)
Definition with_store (m : gmap (App.table_name * string) entry) (s : state) : state :=
  {| my_device_id := my_device_id s; local_sequence := local_sequence s;
     store := m; log := log s; watermarks := watermarks s |}.

(** Modelled from the spec: [next_sequence] together with the append of the
    Change Record (section 4.2 and the single atomic unit of section 5): the
    record gets this device's id and the next local sequence number; the
    timestamp and the origin travel with the change. *)
Definition capture (t : App.table_name) (k : string) (op : App.operation)
    (changed : gmap string value) (ts : Z) (origin : option (string * Z))
    (s : state) : state :=
  let n := local_sequence s + 1 in
  {| my_device_id := my_device_id s;
     local_sequence := n;
     store := store s;
     log := log s ++
            [{| device_id := my_device_id s; sequence := n; table := t;
                row_key := k; operation := op; changed_fields := changed;
                timestamp := ts;
                origin_device_id := from_option fst (my_device_id s) origin;
                origin_sequence := from_option snd n origin |}];
     watermarks := watermarks s |}.


(** Modelled from the spec: a local update of one column; a value equal to
    the old one changes nothing and is not recorded (section 4.2). *)
Definition local_update (t : App.table_name) (k f : string) (v : value)
    (now : Z) (s : state) : state :=
  match store s !! (t, k) with
  | None => s
  | Some e =>
      if decide (fields e !! f = Some v) then s
      else
        capture t k App.op_update {[f := v]} now None
          (with_store
             (<[(t, k) := {| fields := <[f := v]> (fields e);
                             written := <[f := (now, my_device_id s)]> (written e) |}]>
                (store s)) s)
  end.

(** Modelled from the spec: a local delete; the record needs nothing beyond
    the key (section 3). *)
Definition local_delete (t : App.table_name) (k : string) (now : Z) (s : state)
  : state :=
  match store s !! (t, k) with
  | None => s
  | Some _ => capture t k App.op_delete ∅ now None (with_store (delete (t, k) (store s)) s)
  end.

(** *** Export *)


(** *** Import *)

(** Modelled from the spec: no record is out of order (section 4.4, step 1). *)
Fixpoint in_order (l : list change_record) : bool :=
  match l with
  | a :: (b :: _) as l' => (sequence a <? sequence b) && in_order l'
  | _ => true
  end.

(** Modelled from the spec: no gap between one record and the next. *)
Fixpoint gapless (l : list change_record) : bool :=
  match l with
  | a :: (b :: _) as l' => (sequence b <=? sequence a + 1) && gapless l'
  | _ => true
  end.

(** Modelled from the spec: every sequence number lies in the declared
    range. *)
Definition in_range (p : pack) : bool :=
  forallb (fun r => (from_sequence p <=? sequence r) && (sequence r <=? to_sequence p))
    (records p).

(** Modelled from the spec: the structural validation of a pack: the line
    count matches [record_count] (section 6) and the three checks of step
    1. *)
Definition validate (p : pack) : bool :=
  Nat.eqb (length (records p)) (record_count p)
  && in_order (records p) && gapless (records p) && in_range p.

(** Modelled from the spec: step 2, a record at or below the watermark stored
    for its device was applied before. *)
Definition seen (s : state) (r : change_record) : bool :=
  match watermarks s !! device_id r with
  | Some w => sequence r <=? w
  | None => false
  end.

(** Modelled from the spec: the parent rows a record refers to. The foreign
    keys are those of the schema in [init_db]; a foreign key column holds the
    row key of the parent row, or null. *)
Definition parents (r : change_record) : list (App.table_name * string) :=
  omap (fun fk : string * App.table_name * string =>
          match changed_fields r !! fst (fst fk) with
          | Some (Text k) => Some (snd (fst fk), k)
          | _ => None
          end)
       (App.foreign_keys (table r)).

(** Modelled from the spec: the ForeignKeyViolation of section 7: an insert
    or update that names a parent row absent from the local store. *)
Definition fk_violation (s : state) (r : change_record) : bool :=
  match operation r with
  | App.op_delete => false
  | _ => negb (forallb (fun pk => bool_decide (is_Some (store s !! pk))) (parents r))
  end.

(** Modelled from the spec: the comparison of section 4.4, step 4: a higher
    timestamp wins, and on equal timestamps the lexicographically greater
    device id. *)
Definition stamp_lt (a b : stamp) : bool :=
  (fst a <? fst b) || ((fst a =? fst b) && String.ltb (snd a) (snd b)).

(** Modelled from the spec: the key of a record, its timestamp and the id of
    the device it comes from. *)
Definition key_of (r : change_record) : stamp := (timestamp r, device_id r).

(** Modelled from the spec: a column of an incoming record wins against the
    local row when the column was never written here or was last written
    under an earlier key. *)
Definition wins (e : entry) (r : change_record) (f : string) : bool :=
  match written e !! f with
  | Some w => stamp_lt w (key_of r)
  | None => true
  end.

(** Modelled from the spec: the columns of an incoming record that win. *)
Definition winners (e : entry) (r : change_record) : gmap string value :=
  filter (fun fv => wins e r (fst fv) = true) (changed_fields r).

(** Modelled from the spec: an incoming record is captured like a local
    change (step 6), keeping its origin. *)
Definition capture_applied (r : change_record) (changed : gmap string value)
    (s : state) : state :=
  capture (table r) (row_key r) (operation r) changed (timestamp r)
    (Some (origin_device_id r, origin_sequence r)) s.

(** Modelled from the spec: the per-column merge of a record into an existing
    row (step 4). When no column wins, the record is skipped as a conflict. *)
Definition merge_fields (e : entry) (r : change_record) (acc : state * merge_report)
  : state * merge_report :=
  let '(s, rep) := acc in
  let w := winners e r in
  if decide (w = ∅)
  then (s, {| applied := applied rep;
              conflicts := conflicts rep ++ [(table r, row_key r)];
              violations := violations rep;
              new_watermark := new_watermark rep |})
  else
    (capture_applied r w
       (with_store
          (<[(table r, row_key r) :=
               {| fields := w ∪ fields e;
                  written := ((fun _ => key_of r) <$> w) ∪ written e |}]>
             (store s)) s),
     {| applied := S (applied rep);
        conflicts := conflicts rep;
        violations := violations rep;
        new_watermark := new_watermark rep |}).

(** Modelled from the spec: the report with one more foreign-key violation. *)
Definition add_violation (rep : merge_report) (r : change_record) : merge_report :=
  {| applied := applied rep; conflicts := conflicts rep;
     violations := violations rep ++ [r]; new_watermark := new_watermark rep |}.

(** Modelled from the spec: steps 2 to 4 and 6 for one record. *)
Definition apply_record (wm : state) (acc : state * merge_report) (r : change_record)
  : state * merge_report :=
  let '(s, rep) := acc in
  if seen wm r then acc
  else if fk_violation s r then (s, add_violation rep r)
  else
    match operation r, store s !! (table r, row_key r) with
    | App.op_insert, None =>
        (capture_applied r (changed_fields r)
           (with_store
              (<[(table r, row_key r) :=
                   {| fields := changed_fields r;
                      written := (fun _ => key_of r) <$> changed_fields r |}]>
                 (store s)) s),
         {| applied := S (applied rep);
            conflicts := conflicts rep;
            violations := violations rep;
            new_watermark := new_watermark rep |})
    | App.op_insert, Some e => merge_fields e r acc
    | App.op_update, None =>
        (s, {| applied := applied rep;
               conflicts := conflicts rep ++ [(table r, row_key r)];
               violations := violations rep;
               new_watermark := new_watermark rep |})
    | App.op_update, Some e => merge_fields e r acc
    | App.op_delete, None => acc
    | App.op_delete, Some _ =>
        (capture_applied r ∅
           (with_store (delete (table r, row_key r) (store s)) s),
         {| applied := S (applied rep);
            conflicts := conflicts rep;
            violations := violations rep;
            new_watermark := new_watermark rep |})
    end.

(** Modelled from the spec: step 5, the watermark of the exporting device
    moves to the declared [to_sequence] and never backwards. *)
Definition advance (dev : string) (to : Z) (m : gmap string Z) : Z :=
  match m !! dev with
  | Some w => Z.max w to
  | None => to
  end.

(** Modelled from the spec: the report before any record is looked at. *)
Definition empty_report : merge_report :=
  {| applied := O; conflicts := []; violations := []; new_watermark := None |}.

(** Modelled from the spec: the end of a successful import: the watermark of
    the exporting device is stored and the report names it. [s] is the state
    the import started from. *)
Definition finish (p : pack) (s : state) (acc : state * merge_report)
  : state * (error + merge_report) :=
  let '(s1, rep) := acc in
  let w := advance (pack_device_id p) (to_sequence p) (watermarks s) in
  ({| my_device_id := my_device_id s1; local_sequence := local_sequence s1;
      store := store s1; log := log s1;
      watermarks := <[pack_device_id p := w]> (watermarks s1) |},
   inr {| applied := applied rep; conflicts := conflicts rep;
          violations := violations rep; new_watermark := Some w |}).

(** Modelled from the spec: [import(pack)] of section 4.4. A pack that fails
    validation is rejected whole; otherwise the records are applied in order
    and the watermark advances. The result is the state afterwards and the
    report or the error. *)
Definition import (p : pack) (s : state) : state * (error + merge_report) :=
  if validate p
  then finish p s (foldl (apply_record s) (s, empty_report) (records p))
  else (s, inl MalformedPackError).

(** *** Reading a state *)


(** No record of the log is numbered beyond the local sequence counter. *)
Definition log_bounded (s : state) : Prop :=
  Forall (fun r => sequence r <= local_sequence s) (log s).







(** *** Concrete devices and packs, for running the definitions *)

(** A device that has just been given its identity. *)
Definition fresh (dev : string) : state :=
  {| my_device_id := dev; local_sequence := 0; store := ∅; log := [];
     watermarks := ∅ |}.

(** Three inserts from device A: a company, a contact of a company nobody
    has, and another company. *)
Definition orphan_pack : pack :=
  {| pack_device_id := "A"; from_sequence := 1; to_sequence := 3;
     record_count := 3;
     records :=
       [written_by "A" 1 App.companies "c1" App.op_insert {["name" := Text "Acme"]} 10;
        written_by "A" 2 App.contacts "p1" App.op_insert
          {["name" := Text "Ann"; "company_id" := Text "zz"]} 11;
        written_by "A" 3 App.companies "c2" App.op_insert {["name" := Text "Bolt"]} 12] |}.

(** A file whose header names device A and whose two lines are records of
    device C: the insert of a company and its delete. *)
Definition stray_pack : pack :=
  {| pack_device_id := "A"; from_sequence := 1; to_sequence := 2;
     record_count := 2;
     records :=
       [written_by "C" 1 App.companies "c1" App.op_insert {["name" := Text "Acme"]} 10;
        written_by "C" 2 App.companies "c1" App.op_delete ∅ 11] |}.

(** The same pack without its second line, the header unchanged. *)
Definition without_second_line (p : pack) : pack :=
  {| pack_device_id := pack_device_id p; from_sequence := from_sequence p;
     to_sequence := to_sequence p; record_count := record_count p;
     records := match records p with
                | a :: _ :: l => a :: l
                | l => l
                end |}.














End GateSync.

(** ** Properties of the application *)

Section AppFacts.

Import App.

(** *** Settings *)

Lemma get_set_setting_same (c : conn) (k v : string) :
  get_setting (set_setting c k v) k = Some v.
Proof.
  unfold get_setting, set_setting, commit, execute, set_settings; simpl.
  apply lookup_insert_eq.
Qed.

Lemma get_set_setting_other (c : conn) (k k' v : string) :
  k' ≠ k -> get_setting (set_setting c k' v) k = get_setting c k.
Proof.
  intros Hne.
  unfold get_setting, set_setting, commit, execute, set_settings; simpl.
  by apply lookup_insert_ne.
Qed.

Lemma get_setting_untouched (l : list (string * string)) (c : conn) (k : string) :
  k ∉ map fst l -> get_setting (set_settings_all c l) k = get_setting c k.
Proof.
  revert c. induction l as [|[k' v'] l IH]; intros c Hk; [reflexivity|].
  simpl in *. apply not_elem_of_cons in Hk as [Hne Hk].
  rewrite IH by exact Hk. apply get_set_setting_other. congruence.
Qed.

(** C8. [set_setting] then [get_setting] on the same key gives back the value
    written, whatever the store held for that key before; the value is
    committed, so a connection opened afterwards reads it too; and a key that
    no [set_setting] call has named since [init_db] created the store reads
    as [None]. *)
Theorem set_setting_get_setting (c : conn) (k v : string) :
  get_setting (set_setting c k v) k = Some v
  ∧ (∀ w, get_setting (set_setting (set_setting c k w) k v) k = Some v)
  ∧ get_setting (connect_db (stored (set_setting c k v))) k = Some v
  ∧ (∀ l : list (string * string),
       k ∉ map fst l ->
       get_setting (set_settings_all (connect_db init_db) l) k = None).
Proof.
  repeat split.
  - apply get_set_setting_same.
  - intros w. apply get_set_setting_same.
  - apply (get_set_setting_same c k v).
  - intros l Hk. rewrite get_setting_untouched by exact Hk. reflexivity.
Qed.

Lemma set_setting_get_setting_witness :
  get_setting (set_setting (connect_db init_db) "pass_salt" "00ff") "pass_salt"
    = Some "00ff"
  ∧ get_setting
      (set_settings_all (connect_db init_db) [("pass_salt", "00ff")]) "pass_hash"
    = None.
Proof.
  pose proof (set_setting_get_setting (connect_db init_db) "pass_salt" "00ff")
    as (H1 & _ & _ & _).
  pose proof (set_setting_get_setting (connect_db init_db) "pass_hash" "x")
    as (_ & _ & _ & H4).
  split; [exact H1|].
  apply H4. vm_compute. intros H. inversion H as [|? ? ? H']. inversion H'.
Defined.

(** *** The passcode gate *)

Section PasscodeFacts.

Variable sha256_hex : string -> string.

Lemma enter_loop_spec (ui : dialogs) (stored salt : string) (n i : nat) :
  let r := enter_loop sha256_hex ui stored salt n i in
  (length (snd r) <= n)%nat
  ∧ (∀ j, (j < length (snd r))%nat -> snd r !! j = Some (askstring ui (i + j)%nat))
  ∧ (fst r = true <-> ∃ p, Some p ∈ snd r ∧ hash_pass sha256_hex p salt = stored)
  ∧ (fst r = false <->
       (length (snd r) = n ∧ Forall (wrong_entry sha256_hex stored salt) (snd r))
       ∨ last (snd r) = Some None).
Proof.
  revert i. induction n as [|n IH]; intros i; simpl.
  - split_and!.
    + lia.
    + intros j Hj; simpl in Hj; lia.
    + split; [discriminate|].
      intros (p & Hp & _). by apply elem_of_nil in Hp.
    + split; [|reflexivity].
      intros _. left. split; [reflexivity | constructor].
  - destruct (askstring ui i) as [entered|] eqn:Hask; simpl.
    + destruct (String.eqb (hash_pass sha256_hex entered salt) stored) eqn:Hh; simpl.
      * apply String.eqb_eq in Hh. split_and!.
        -- lia.
        -- intros j Hj. assert (j = 0%nat) as -> by lia.
           by rewrite Nat.add_0_r, Hask.
        -- split; [|reflexivity].
           intros _. exists entered. split; [apply list_elem_of_here | exact Hh].
        -- split; [discriminate|].
           intros [[_ Hall] | Hl]; [|discriminate].
           apply Forall_cons in Hall as [(p & Hp & Hne) _]. congruence.
      * apply String.eqb_neq in Hh.
        specialize (IH (S i)).
        destruct (enter_loop sha256_hex ui stored salt n (S i)) as [b tr] eqn:Hrec.
        simpl in *. destruct IH as (Hlen & Hask' & Htrue & Hfalse).
        split_and!.
        -- lia.
        -- intros [|j] Hj; simpl.
           ++ by rewrite Nat.add_0_r, Hask.
           ++ rewrite Hask' by lia. f_equal. f_equal. lia.
        -- split.
           ++ intros Hb. apply Htrue in Hb as (p & Hp & Hhp).
              exists p. split; [by apply list_elem_of_further | exact Hhp].
           ++ intros (p & Hp & Hhp). apply Htrue.
              apply elem_of_cons in Hp as [Hp | Hp]; [congruence|]. by exists p.
        -- split.
           ++ intros Hb. apply Hfalse in Hb as [[Hl Hall] | Hl].
              ** left. split; [lia|]. constructor; [|exact Hall].
                 by exists entered.
              ** right. destruct tr; [discriminate | exact Hl].
           ++ intros [[Hl Hall] | Hl]; apply Hfalse.
              ** left. apply Forall_cons in Hall as [_ Hall].
                 split; [lia | exact Hall].
              ** destruct tr as [|a tr'].
                 --- simpl in Hl. discriminate.
                 --- right. exact Hl.
    + split_and!.
      * lia.
      * intros j Hj. assert (j = 0%nat) as -> by lia.
        by rewrite Nat.add_0_r, Hask.
      * split; [discriminate|].
        intros (p & Hp & _). apply list_elem_of_singleton in Hp. discriminate.
      * split; [|reflexivity]. intros _. right. reflexivity.
Qed.

Lemma create_loop_closes (ui : dialogs) (c : conn) (n : nat) :
  ∀ (i fuel : nat),
    round_closes ui (i + 2 * n) -> (n < fuel)%nat ->
    ∃ c', create_loop sha256_hex ui c fuel i = Some c'.
Proof.
  induction n as [|n IH]; intros i fuel Hc Hf.
  - destruct fuel as [|fuel]; [lia|]. simpl.
    replace (i + 2 * 0)%nat with i in Hc by lia.
    destruct (askstring ui i) as [p1|] eqn:Hask; [|by eexists].
    unfold round_closes in Hc. rewrite Hask in Hc.
    destruct Hc as [Hc | Hc]; [done|].
    rewrite decide_True by exact Hc. by eexists.
  - destruct fuel as [|fuel]; [lia|]. simpl.
    destruct (askstring ui i) as [p1|] eqn:Hask; [|by eexists].
    destruct (decide (askstring ui (S i) = Some p1)); [by eexists|].
    apply IH; [|lia].
    replace (S (S i) + 2 * n)%nat with (i + 2 * S n)%nat by lia. exact Hc.
Qed.

(** C9 (as amended). With a non-empty [pass_hash] in the store,
    [ensure_passcode] shows at most three "Enter passcode" prompts, leaves the
    store as it is, and returns [True] exactly when one of the strings entered
    hashes, with the stored [pass_salt] (or the empty string when there is
    none), to the stored hash; it returns [False] exactly after three wrong
    entries or a cancelled prompt. With no [pass_hash], or an empty one, it
    never returns [False]: it returns [True] at once when the offer to set a
    passcode is declined, and as soon as the creation dialogue ends
    otherwise. *)
Theorem ensure_passcode_gate (ui : dialogs) (fuel : nat) (c : conn) :
  (∀ stored,
     get_setting c "pass_hash" = Some stored -> stored ≠ "" ->
     let salt := or_empty (get_setting c "pass_salt") in
     ∃ b tr,
       ensure_passcode sha256_hex ui fuel c
         = Some {| pr_ok := b; pr_conn := c; pr_entered := tr |}
       ∧ (length tr <= 3)%nat
       ∧ (∀ j, (j < length tr)%nat -> tr !! j = Some (askstring ui j))
       ∧ (b = true <->
            ∃ p, Some p ∈ tr ∧ hash_pass sha256_hex p salt = stored)
       ∧ (b = false <->
            (length tr = 3%nat ∧ Forall (wrong_entry sha256_hex stored salt) tr)
            ∨ last tr = Some None))
  ∧ (get_setting c "pass_hash" = None ∨ get_setting c "pass_hash" = Some "" ->
     (∀ r, ensure_passcode sha256_hex ui fuel c = Some r -> pr_ok r = true)
     ∧ (askyesno ui = false ->
        ensure_passcode sha256_hex ui fuel c
          = Some {| pr_ok := true; pr_conn := c; pr_entered := [] |})
     ∧ (∀ n, round_closes ui (2 * n) -> (n < fuel)%nat ->
        ∃ c', ensure_passcode sha256_hex ui fuel c
                = Some {| pr_ok := true; pr_conn := c'; pr_entered := [] |})).
Proof.
  split.
  - intros stored Hs Hne salt. unfold ensure_passcode. rewrite Hs.
    assert (truthy (Some stored) = true) as ->.
    { simpl. destruct (String.eqb stored "") eqn:He; [|reflexivity].
      apply String.eqb_eq in He. congruence. }
    cbn [negb or_empty]. fold salt.
    pose proof (enter_loop_spec ui stored salt 3 0) as Hspec.
    destruct (enter_loop sha256_hex ui stored salt 3 0) as [b tr].
    cbn [fst snd] in Hspec.
    destruct Hspec as (Hlen & Hask & Htrue & Hfalse).
    exists b, tr. split_and!; done.
  - intros Hnone.
    assert (truthy (get_setting c "pass_hash") = false) as Hf
      by (destruct Hnone as [-> | ->]; reflexivity).
    unfold ensure_passcode. rewrite Hf. simpl. split_and!.
    + intros r. destruct (askyesno ui).
      * destruct (create_loop sha256_hex ui c fuel 0); [|discriminate].
        by intros [= <-].
      * by intros [= <-].
    + by intros ->.
    + intros n Hn Hfuel. destruct (askyesno ui); [|by eexists].
      destruct (create_loop_closes ui c n 0 fuel Hn Hfuel) as [c' ->].
      by eexists.
Qed.

End PasscodeFacts.

Lemma ensure_passcode_gate_witness :
  let c := set_setting (set_setting (connect_db init_db) "pass_salt" "s")
             "pass_hash" (hash_pass toy_digest "open" "s") in
  (∃ b tr,
     ensure_passcode toy_digest (typist "open") 1 c
       = Some {| pr_ok := b; pr_conn := c; pr_entered := tr |}
     ∧ (length tr <= 3)%nat
     ∧ (b = true <->
          ∃ p, Some p ∈ tr ∧ hash_pass toy_digest p "s" = hash_pass toy_digest "open" "s"))
  ∧ ∃ c', ensure_passcode toy_digest (typist "open") 1 (connect_db init_db)
            = Some {| pr_ok := true; pr_conn := c'; pr_entered := [] |}.
Proof.
  intros c. split.
  - destruct (ensure_passcode_gate toy_digest (typist "open") 1 c) as [H _].
    destruct (H (hash_pass toy_digest "open" "s")) as (b & tr & Hr & Hl & _ & Ht & _).
    + reflexivity.
    + vm_compute. discriminate.
    + exists b, tr. split; [exact Hr|]. split; [exact Hl | exact Ht].
  - destruct (ensure_passcode_gate toy_digest (typist "open") 1 (connect_db init_db))
      as [_ H].
    destruct H as (_ & _ & H); [left; reflexivity|].
    apply (H 0%nat); [right; reflexivity | lia].
Defined.

(** C9, the claim as stated fails: a store that holds an empty [pass_hash]
    value is let through with no passcode entered at all. *)
Lemma ensure_passcode_empty_hash :
  let c := set_setting (connect_db init_db) "pass_hash" "" in
  let ui := {| askyesno := false; askstring := fun _ => Some "guess";
               token_hex := "a1b2c3d4e5f60718" |} in
  get_setting c "pass_hash" = Some ""
  ∧ ensure_passcode toy_digest ui 1 c
      = Some {| pr_ok := true; pr_conn := c; pr_entered := [] |}.
Proof. split; reflexivity. Qed.


(** *** Statements and tables *)

Lemma get_table_set_same (t : table_name) (x : table) (d : db) :
  get_table t (set_table t x d) = x.
Proof. by destruct t. Qed.

Lemma get_table_set_other (t t' : table_name) (x : table) (d : db) :
  t ≠ t' -> get_table t' (set_table t x d) = get_table t' d.
Proof. by destruct t, t'. Qed.

Lemma get_table_fire (t t' : table_name) (op : operation) (ids : list Z) (d : db) :
  get_table t' (fire t op ids d) = get_table t' d.
Proof. unfold fire. case_decide; [by destruct t'|done]. Qed.

Lemma hooks_set_table (t : table_name) (x : table) (d : db) :
  hooks (set_table t x d) = hooks d.
Proof. by destruct t. Qed.

Lemma change_log_set_table (t : table_name) (x : table) (d : db) :
  change_log (set_table t x d) = change_log d.
Proof. by destruct t. Qed.

Lemma get_table_insert_row_same (t : table_name) (r : row) (d : db) :
  get_table t (insert_row t r d)
  = {| rows := rows (get_table t d) ++ [(next_rowid (get_table t d), r)];
       last_id := next_rowid (get_table t d) |}.
Proof. unfold insert_row. by rewrite get_table_fire, get_table_set_same. Qed.

Lemma get_table_insert_row_other (t t' : table_name) (r : row) (d : db) :
  t ≠ t' -> get_table t' (insert_row t r d) = get_table t' d.
Proof.
  intros H. unfold insert_row. by rewrite get_table_fire, get_table_set_other.
Qed.

Lemma t_companies_insert_contact (r : row) (d : db) :
  t_companies (insert_row contacts r d) = t_companies d.
Proof. by apply (get_table_insert_row_other contacts companies). Qed.

Lemma t_contacts_insert_company (r : row) (d : db) :
  t_contacts (insert_row companies r d) = t_contacts d.
Proof. by apply (get_table_insert_row_other companies contacts). Qed.

Lemma rows_insert_contact (r : row) (d : db) :
  rows (t_contacts (insert_row contacts r d))
  = rows (t_contacts d) ++ [(next_rowid (t_contacts d), r)].
Proof. apply (f_equal rows (get_table_insert_row_same contacts r d)). Qed.

Lemma max_rowid_ge (l : list (Z * row)) (i : Z) :
  i ∈ map fst l -> i <= max_rowid l.
Proof.
  induction l as [|[j r] l IH]; simpl; intros H.
  - by apply elem_of_nil in H.
  - apply elem_of_cons in H as [-> | H]; [lia|]. specialize (IH H). lia.
Qed.

(** The rowid of a new row is larger than every rowid of its table. *)
Lemma next_rowid_fresh (x : table) (i : Z) :
  i ∈ map fst (rows x) -> i < next_rowid x.
Proof. intros H. apply max_rowid_ge in H. unfold next_rowid. lia. Qed.

(** *** CSV import *)

Section ImportFacts.

Variable strip : string -> string.
Variable today : string.

Lemma import_company_unnamed (st : db * nat) (r : csv_record) :
  csv_name strip r = "" -> import_company strip today st r = st.
Proof. intros H. destruct st as [d a]. unfold import_company. by rewrite H. Qed.

Lemma import_contact_unnamed (st : db * nat) (r : csv_record) :
  csv_name strip r = "" -> import_contact strip today st r = st.
Proof. intros H. destruct st as [d a]. unfold import_contact. by rewrite H. Qed.

Lemma named_true (r : csv_record) :
  named strip r = true <-> csv_name strip r ≠ "".
Proof.
  unfold named. rewrite negb_true_iff. apply String.eqb_neq.
Qed.

Lemma import_company_named (d : db) (a : nat) (r : csv_record) :
  named strip r = true ->
  ∃ x, import_company strip today (d, a) r
       = (insert_row companies x d, S a).
Proof.
  intros H. unfold import_company. unfold named in H.
  apply negb_true_iff in H. rewrite H. by eexists.
Qed.

Lemma foldl_import_company (reader : list csv_record) (d : db) (a : nat) :
  let res := foldl (import_company strip today) (d, a) reader in
  snd res = (a + length (List.filter (named strip) reader))%nat
  ∧ length (rows (t_companies (fst res)))
    = (length (rows (t_companies d)) + length (List.filter (named strip) reader))%nat.
Proof.
  revert d a. induction reader as [|r reader IH]; intros d a.
  - simpl. split; lia.
  - cbn [foldl List.filter]. destruct (named strip r) eqn:Hn.
    + destruct (import_company_named d a r Hn) as [x ->].
      destruct (IH (insert_row companies x d) (S a)) as [-> ->].
      pose proof (get_table_insert_row_same companies x d) as Hi.
      cbn [get_table] in Hi. rewrite Hi. cbn [rows length].
      rewrite length_app. simpl. split; lia.
    + rewrite import_company_unnamed.
      * apply IH.
      * unfold named in Hn. apply negb_false_iff in Hn. by apply String.eqb_eq.
Qed.

Lemma find_company_new (name : string) (a b c e : value) (d : db) :
  find_company name d = None ->
  find_company name (insert_row companies (company_row today name a b c e) d)
  = Some (next_rowid (t_companies d)).
Proof.
  unfold find_company.
  pose proof (get_table_insert_row_same companies
                (company_row today name a b c e) d) as Hi.
  cbn [get_table] in Hi. rewrite Hi. cbn [rows]. clear Hi.
  generalize (next_rowid (t_companies d)).
  induction (rows (t_companies d)) as [|p l IH]; intros i Hnone.
  - simpl. unfold company_row. rewrite lookup_insert_eq, String.eqb_refl. done.
  - cbn [app find] in *.
    destruct (match snd p !! "name" with
              | Some (VText s0) => String.eqb s0 name
              | _ => false
              end); [simpl in Hnone; discriminate Hnone|].  by apply IH.
Qed.

Lemma resolve_company_contacts (company : string) (d : db) :
  t_contacts (fst (resolve_company today company d)) = t_contacts d.
Proof.
  unfold resolve_company. destruct (String.eqb company ""); [done|].
  destruct (find_company company d); [done|]. simpl.
  apply (get_table_insert_row_other companies contacts); done.
Qed.

Lemma import_contact_named (d : db) (a : nat) (r : csv_record) :
  named strip r = true ->
  import_contact strip today (d, a) r
  = (insert_row contacts
       (contact_row (snd (resolve_company today (csv_company strip r) d))
          (csv_name strip r) (or_empty (r !! "title"))
          (or_empty (r !! "email")) (or_empty (r !! "phone")))
       (fst (resolve_company today (csv_company strip r) d)),
     S a).
Proof.
  intros H. unfold import_contact. unfold named in H.
  apply negb_true_iff in H. rewrite H.
  by destruct (resolve_company today (csv_company strip r) d).
Qed.

Lemma foldl_import_contact (reader : list csv_record) (d : db) (a : nat) :
  let res := foldl (import_contact strip today) (d, a) reader in
  snd res = (a + length (List.filter (named strip) reader))%nat
  ∧ length (rows (t_contacts (fst res)))
    = (length (rows (t_contacts d)) + length (List.filter (named strip) reader))%nat.
Proof.
  revert d a. induction reader as [|r reader IH]; intros d a.
  - simpl. split; lia.
  - cbn [foldl List.filter]. destruct (named strip r) eqn:Hn.
    + rewrite (import_contact_named d a r Hn).
      match goal with |- context [foldl _ (?d', S a) reader] =>
        destruct (IH d' (S a)) as [-> ->];
        change (t_contacts d') with (get_table contacts d') end.
      rewrite get_table_insert_row_same. cbn [rows get_table length].
      rewrite length_app, resolve_company_contacts. simpl. split; lia.
    + rewrite import_contact_unnamed.
      * apply IH.
      * unfold named in Hn. apply negb_false_iff in Hn. by apply String.eqb_eq.
Qed.

Lemma find_company_Some (name : string) (d : db) (j : Z) :
  find_company name d = Some j ->
  ∃ pre r post,
    rows (t_companies d) = pre ++ (j, r) :: post
    ∧ r !! "name" = Some (VText name)
    ∧ Forall (fun p => snd p !! "name" ≠ Some (VText name)) pre.
Proof.
  unfold find_company.
  induction (rows (t_companies d)) as [|p l IH]; cbn [find]; [done|].
  destruct (match snd p !! "name" with
            | Some (VText s0) => String.eqb s0 name
            | _ => false
            end) eqn:Hp.
  - intros [= <-]. exists [], (snd p), l. split_and!; [by destruct p| |done].
    destruct (snd p !! "name") as [[| | |s0]|]; try done.
    apply String.eqb_eq in Hp. by subst.
  - intros H. destruct (IH H) as (pre & r & post & -> & Hr & Hpre).
    exists (p :: pre), r, post. split_and!; [done..|].
    constructor; [|done].
    destruct (snd p !! "name") as [[| | |s0]|]; try done.
    apply String.eqb_neq in Hp. congruence.
Qed.

Lemma find_company_no_match (name : string) (d : db) :
  find_company name d = None ->
  Forall (fun p => snd p !! "name" ≠ Some (VText name)) (rows (t_companies d)).
Proof.
  unfold find_company.
  induction (rows (t_companies d)) as [|p l IH]; cbn [find]; [done|].
  destruct (match snd p !! "name" with
            | Some (VText s0) => String.eqb s0 name
            | _ => false
            end) eqn:Hp; [done|].
  intros H. constructor; [|by apply IH].
  destruct (snd p !! "name") as [[| | |s0]|]; try done.
  apply String.eqb_neq in Hp. congruence.
Qed.

Lemma read_into_result (turn : db * nat -> csv_record -> db * nat) (r : csv_read)
    (c : conn) :
  let st := foldl turn (pending c, O) (yielded r) in
  pending (fst (read_into turn r c)) = fst st
  ∧ if raises r
    then snd (read_into turn r c) = None ∧ stored (fst (read_into turn r c)) = stored c
    else snd (read_into turn r c) = Some (snd st)
         ∧ stored (fst (read_into turn r c)) = fst st.
Proof.
  unfold read_into.
  destruct (foldl turn (pending c, O) (yielded r)) as [d n].
  by destruct (raises r).
Qed.

(** C10 (as amended). In [ask_import_csv] for companies and for contacts: a
    record whose stripped [name] (or [Name]) field is empty changes nothing;
    the rows of that kind the import adds are one for each named record
    read; when the file is read to its end they are committed and the count
    reported is their number, and when the read raises part-way they are
    left uncommitted and no count is reported. A named contact record with a
    non-empty company name is stored with its own fields and the id of that
    company: when no company has the name, exactly one company row is added,
    with that name and nothing else but its creation date, the contact refers
    to it and later records find it; when a company has the name, no company
    row is added and the contact refers to the first such company. *)
Theorem ask_import_csv_rows (r : csv_read) (c : conn) :
  (∀ st x, csv_name strip x = "" ->
     import_company strip today st x = st ∧ import_contact strip today st x = st)
  ∧ (let res := ask_import_csv strip today "companies" (opened r) c in
     length (rows (t_companies (pending (fst res))))
     = (length (rows (t_companies (pending c)))
        + length (List.filter (named strip) (yielded r)))%nat
     ∧ if raises r
       then snd res = None ∧ stored (fst res) = stored c
       else snd res = Some (length (List.filter (named strip) (yielded r)))
            ∧ stored (fst res) = pending (fst res))
  ∧ (let res := ask_import_csv strip today "contacts" (opened r) c in
     length (rows (t_contacts (pending (fst res))))
     = (length (rows (t_contacts (pending c)))
        + length (List.filter (named strip) (yielded r)))%nat
     ∧ if raises r
       then snd res = None ∧ stored (fst res) = stored c
       else snd res = Some (length (List.filter (named strip) (yielded r)))
            ∧ stored (fst res) = pending (fst res))
  ∧ (∀ d added x,
       named strip x = true -> csv_company strip x ≠ "" ->
       let d' := fst (import_contact strip today (d, added) x) in
       ∃ i rc,
         rows (t_contacts d') = rows (t_contacts d) ++ [(next_rowid (t_contacts d), rc)]
         ∧ rc !! "company_id" = Some (VInt i)
         ∧ rc !! "name" = Some (VText (csv_name strip x))
         ∧ rc !! "title" = Some (VText (or_empty (x !! "title")))
         ∧ rc !! "email" = Some (VText (or_empty (x !! "email")))
         ∧ rc !! "phone" = Some (VText (or_empty (x !! "phone")))
         ∧ ((Forall (fun p => snd p !! "name" ≠ Some (VText (csv_company strip x)))
               (rows (t_companies d))
             ∧ i = next_rowid (t_companies d)
             ∧ find_company (csv_company strip x) d' = Some i
             ∧ ∃ rco,
                 rows (t_companies d') = rows (t_companies d) ++ [(i, rco)]
                 ∧ rco !! "name" = Some (VText (csv_company strip x))
                 ∧ rco !! "phone" = Some VNull ∧ rco !! "email" = Some VNull
                 ∧ rco !! "website" = Some VNull ∧ rco !! "address" = Some VNull
                 ∧ rco !! "created_at" = Some (VText today))
            ∨ (rows (t_companies d') = rows (t_companies d)
               ∧ ∃ pre rco post,
                   rows (t_companies d) = pre ++ (i, rco) :: post
                   ∧ rco !! "name" = Some (VText (csv_company strip x))
                   ∧ Forall (fun p => snd p !! "name"
                                      ≠ Some (VText (csv_company strip x))) pre))).
Proof.
  split_and!.
  - intros st x H. split;
      [by apply import_company_unnamed | by apply import_contact_unnamed].
  - unfold ask_import_csv. cbn [String.eqb Ascii.eqb Bool.eqb].
    pose proof (read_into_result (import_company strip today) r c) as [Hp Hr].
    pose proof (foldl_import_company (yielded r) (pending c) O) as [H1 H2].
    cbn zeta in *. rewrite Hp. split; [exact H2|].
    destruct (raises r); [done|]. destruct Hr as [-> ->]. by rewrite H1.
  - unfold ask_import_csv. cbn [String.eqb Ascii.eqb Bool.eqb].
    pose proof (read_into_result (import_contact strip today) r c) as [Hp Hr].
    pose proof (foldl_import_contact (yielded r) (pending c) O) as [H1 H2].
    cbn zeta in *. rewrite Hp. split; [exact H2|].
    destruct (raises r); [done|]. destruct Hr as [-> ->]. by rewrite H1.
  - intros d added x Hn Hc d'. subst d'.
    rewrite (import_contact_named d added x Hn). cbn [fst].
    unfold resolve_company.
    apply String.eqb_neq in Hc. rewrite Hc.
    destruct (find_company (csv_company strip x) d) as [j|] eqn:Hf; cbn [fst snd].
    + exists j. eexists. rewrite rows_insert_contact, t_companies_insert_contact.
      split; [reflexivity|]. unfold contact_row.
      split_and!;
        try (repeat (rewrite ?lookup_insert_eq; rewrite ?lookup_insert_ne by done);
             reflexivity).
      right. split; [done|]. by apply find_company_Some.
    + exists (lastrowid companies d). eexists.
      rewrite rows_insert_contact, t_companies_insert_contact,
        t_contacts_insert_company.
      split; [reflexivity|]. unfold contact_row.
      split_and!;
        try (repeat (rewrite ?lookup_insert_eq; rewrite ?lookup_insert_ne by done);
             reflexivity).
      left. split_and!.
      * by apply find_company_no_match.
      * reflexivity.
      * unfold find_company at 1. rewrite t_companies_insert_contact.
        by apply find_company_new.
      * eexists. split;
          [apply (f_equal rows (get_table_insert_row_same companies _ d))|].
        unfold company_row.
        split_and!;
          repeat (rewrite ?lookup_insert_eq; rewrite ?lookup_insert_ne by done);
          reflexivity.
Qed.

Lemma ask_import_csv_invariant (P : db -> Prop) (kind : string)
    (file : chosen_file) (c : conn) :
  (∀ st x, P (fst st) -> P (fst (import_company strip today st x))) ->
  (∀ st x, P (fst st) -> P (fst (import_contact strip today st x))) ->
  P (pending c) ->
  P (pending (fst (ask_import_csv strip today kind file c))).
Proof.
  intros Hco Hct H.
  assert (∀ (turn : db * nat -> csv_record -> db * nat) l (st : db * nat),
            (∀ st x, P (fst st) -> P (fst (turn st x))) ->
            P (fst st) -> P (fst (foldl turn st l))) as Hfold.
  { intros turn l. induction l as [|x l IH]; intros st Hstep Hst; [done|].
    cbn [foldl]. by apply IH, Hstep. }
  destruct file as [| |r]; [done..|]. unfold ask_import_csv.
  destruct (String.eqb kind "companies").
  { destruct (read_into_result (import_company strip today) r c) as [-> _].
    by apply Hfold. }
  destruct (String.eqb kind "contacts"); [|done].
  destruct (read_into_result (import_contact strip today) r c) as [-> _].
  by apply Hfold.
Qed.

Lemma ask_import_csv_stored (kind : string) (file : chosen_file) (c : conn) :
  let res := ask_import_csv strip today kind file c in
  match snd res with
  | Some _ => stored (fst res) = pending (fst res)
  | None => stored (fst res) = stored c
  end.
Proof.
  destruct file as [| |r]; [done..|]. unfold ask_import_csv.
  destruct (String.eqb kind "companies").
  { destruct (read_into_result (import_company strip today) r c) as [Hp Hr].
    destruct (raises r); destruct Hr as [-> ->]; done. }
  destruct (String.eqb kind "contacts"); [|done].
  destruct (read_into_result (import_contact strip today) r c) as [Hp Hr].
  destruct (raises r); destruct Hr as [-> ->]; done.
Qed.

End ImportFacts.

Lemma ask_import_csv_rows_witness :
  snd (ask_import_csv ascii_strip "2024-05-01" "contacts" (whole_file contacts_csv)
         (connect_db init_db))
    = Some 2%nat
  ∧ length (rows (t_contacts (stored (fst
      (ask_import_csv ascii_strip "2024-05-01" "contacts" (whole_file contacts_csv)
         (connect_db init_db)))))) = 2%nat
  ∧ ∃ i rc,
      rows (t_contacts (fst (import_contact ascii_strip "2024-05-01" (init_db, O)
                               {["name" := "Ann"; "company" := "Acme"]})))
      = [(1, rc)]
      ∧ rc !! "company_id" = Some (VInt i).
Proof.
  destruct (ask_import_csv_rows ascii_strip "2024-05-01"
              {| yielded := contacts_csv; raises := false |}
              (connect_db init_db)) as (_ & _ & (H2 & H1 & Hs) & H3).
  split_and!.
  - exact H1.
  - unfold whole_file. rewrite Hs. exact H2.
  - specialize (H3 init_db O {["name" := "Ann"; "company" := "Acme"]}).
    destruct H3 as (i & rc & H3 & H4 & _).
    + reflexivity.
    + vm_compute. discriminate.
    + exists i, rc. split; [exact H3 | exact H4].
Defined.

(** C10, the claim as stated fails for a file that cannot be read to its
    end. A companies file whose read raises after one named record: the row
    of that record is in the connection's view, nothing is committed and no
    count is reported; the next commit on the connection stores the row. *)
Lemma ask_import_csv_read_fails :
  snd (ask_import_csv ascii_strip "2024-05-01" "companies"
         (opened {| yielded := [ {["name" := "Acme"]} ]; raises := true |})
         (connect_db init_db))
  = None
  ∧ length (rows (t_companies (pending (fst
      (ask_import_csv ascii_strip "2024-05-01" "companies"
         (opened {| yielded := [ {["name" := "Acme"]} ]; raises := true |})
         (connect_db init_db)))))) = 1%nat
  ∧ rows (t_companies (stored (fst
      (ask_import_csv ascii_strip "2024-05-01" "companies"
         (opened {| yielded := [ {["name" := "Acme"]} ]; raises := true |})
         (connect_db init_db)))))
    = []
  ∧ length (rows (t_companies (stored (commit (fst
      (ask_import_csv ascii_strip "2024-05-01" "companies"
         (opened {| yielded := [ {["name" := "Acme"]} ]; raises := true |})
         (connect_db init_db))))))) = 1%nat.
Proof. split_and!; reflexivity. Qed.

(** *** Editing paths and change records *)

Lemma change_log_insert_row (t : table_name) (r : row) (d : db) :
  change_log (insert_row t r d)
  = if decide (t ∈ hooks d)
    then change_log d
         ++ [{| ch_table := t; ch_op := op_insert;
                ch_rowid := next_rowid (get_table t d) |}]
    else change_log d.
Proof.
  unfold insert_row, fire. rewrite hooks_set_table.
  case_decide; [|apply change_log_set_table].
  simpl. by rewrite change_log_set_table.
Qed.

Lemma change_log_update_row (t : table_name) (i : Z) (f : row -> row) (d : db) :
  change_log (update_row t i f d)
  = if decide (t ∈ hooks d)
    then change_log d
         ++ map (fun j => {| ch_table := t; ch_op := op_update; ch_rowid := j |})
                (filter (fun j => j = i) (rowids t d))
    else change_log d.
Proof.
  unfold update_row, fire, rowids. rewrite hooks_set_table.
  case_decide; [|apply change_log_set_table].
  simpl. rewrite change_log_set_table. do 2 f_equal.
  induction (rows (get_table t d)) as [|p l IH]; [done|].
  rewrite fmap_cons, !filter_cons. simpl.
  case_decide; simpl; by rewrite IH.
Qed.

Lemma change_log_delete_row (t : table_name) (i : Z) (d : db) :
  change_log (delete_row t i d)
  = if decide (t ∈ hooks d)
    then change_log d
         ++ map (fun j => {| ch_table := t; ch_op := op_delete; ch_rowid := j |})
                (filter (fun j => j = i) (rowids t d))
    else change_log d.
Proof.
  unfold delete_row, fire, rowids. rewrite hooks_set_table.
  case_decide; [|apply change_log_set_table].
  simpl. rewrite change_log_set_table. do 2 f_equal.
  induction (rows (get_table t d)) as [|p l IH]; [done|].
  rewrite fmap_cons, !filter_cons. simpl.
  case_decide; simpl; by rewrite IH.
Qed.

Section EditingFacts.

Variable strip : string -> string.
Variable today : string.

(** C1 (as amended). The editing paths run their statement on the connection
    and commit; whether a change record is written rests on a hook installed
    on the table in the store, not on the path. With a hook on the table,
    [CompaniesTab.on_save] and [DealsTab.on_delete] leave one change record
    for each row they changed, committed together with the change; with none,
    they commit the change and the change log stays as it was. A store made by
    [init_db] and opened while [gate_sync] cannot be imported has no hook. *)
Theorem editing_paths_change_records (c : conn) :
  (∀ f, let c' := snd (CompaniesTab_on_save strip today f c) in
        strip (var_name f) ≠ "" ->
        stored c' = pending c'
        ∧ (companies ∉ hooks (pending c) ->
           change_log (stored c') = change_log (pending c))
        ∧ (companies ∈ hooks (pending c) ->
           match var_id f with
           | None =>
               rows (t_companies (stored c'))
               = rows (t_companies (pending c))
                 ++ [(next_rowid (t_companies (pending c)),
                      company_row today (strip (var_name f))
                        (VText (strip (var_phone f))) (VText (strip (var_email f)))
                        (VText (strip (var_website f)))
                        (VText (strip (txt_address f))))]
               ∧ change_log (stored c')
                 = change_log (pending c)
                   ++ [{| ch_table := companies; ch_op := op_insert;
                          ch_rowid := next_rowid (t_companies (pending c)) |}]
           | Some i =>
               change_log (stored c')
               = change_log (pending c)
                 ++ map (fun j => {| ch_table := companies; ch_op := op_update;
                                     ch_rowid := j |})
                        (filter (fun j => j = i) (rowids companies (pending c)))
           end))
  ∧ (∀ i, let c' := snd (DealsTab_on_delete (Some i) true c) in
          stored c' = pending c'
          ∧ rowids deals (stored c')
            = filter (fun j => j ≠ i) (rowids deals (pending c))
          ∧ (deals ∉ hooks (pending c) ->
             change_log (stored c') = change_log (pending c))
          ∧ (deals ∈ hooks (pending c) ->
             change_log (stored c')
             = change_log (pending c)
               ++ map (fun j => {| ch_table := deals; ch_op := op_delete;
                                   ch_rowid := j |})
                      (filter (fun j => j = i) (rowids deals (pending c)))))
  ∧ hooks (pending (GateMiniCRMApp_init (import_gate_sync None) init_db)) = [].
Proof.
  split_and!.
  - intros f c' Hname. subst c'. unfold CompaniesTab_on_save.
    apply String.eqb_neq in Hname. rewrite Hname.
    destruct (var_id f) as [i|]; cbn [snd commit execute stored pending].
    + rewrite change_log_update_row. split_and!; [done|..].
      * intros H. by rewrite decide_False.
      * intros H. by rewrite decide_True.
    + rewrite change_log_insert_row. split_and!; [done|..].
      * intros H. by rewrite decide_False.
      * intros H. rewrite decide_True by done. split; [|done].
        apply (f_equal rows (get_table_insert_row_same companies _ (pending c))).
  - intros i c'. subst c'. cbn [DealsTab_on_delete snd commit execute stored pending].
    rewrite change_log_delete_row. split_and!; [done|..].
    + unfold rowids, delete_row. rewrite get_table_fire, get_table_set_same.
      cbn [rows]. induction (rows (get_table deals (pending c))) as [|p l IH]; [done|].
      rewrite fmap_cons, !filter_cons. simpl.
      case_decide; simpl; by rewrite IH.
    + intros H. by rewrite decide_False.
    + intros H. by rewrite decide_True.
  - reflexivity.
Qed.

End EditingFacts.

Lemma editing_paths_change_records_witness :
  let c := connect_db init_db in
  let c' := snd (CompaniesTab_on_save ascii_strip "2024-05-01" (new_company " Acme ") c) in
  stored c' = pending c'
  ∧ change_log (stored c') = change_log (pending c).
Proof.
  intros c c'.
  destruct (editing_paths_change_records ascii_strip "2024-05-01" c) as [H _].
  destruct (H (new_company " Acme ")) as (H1 & H2 & _).
  - vm_compute. discriminate.
  - split; [exact H1|]. apply H2. vm_compute. apply not_elem_of_nil.
Defined.

(** C1, the claim as stated fails: with [gate_sync] not importable the
    application starts on the store [init_db] made, [CompaniesTab.on_save]
    commits the insert of a company, and no change record exists. *)
Lemma on_save_without_change_record :
  let c := GateMiniCRMApp_init (import_gate_sync None) init_db in
  let c' := snd (CompaniesTab_on_save ascii_strip "2024-05-01" (new_company " Acme ") c) in
  rows (t_companies (stored c'))
  = [(1, company_row "2024-05-01" "Acme" (VText "") (VText "") (VText "") (VText ""))]
  ∧ change_log (stored c') = [].
Proof. split; reflexivity. Qed.

(** *** Row identifiers *)

(** X18. [init_db] declares [id INTEGER PRIMARY KEY AUTOINCREMENT] as the key
    of every business table and points every foreign key at such an [id]; no
    other key column is declared. The [id] of a new row is one more than the
    largest the table of this store holds or has held: it differs from every
    [id] already in the table, and it is 1 for the first row of a table in
    any store. *)
Theorem row_ids_are_local_counters (t : table_name) (r : row) (d : db) :
  primary_key t
  = {| key_column := "id"; key_type := "INTEGER"; key_autoincrement := true |}
  ∧ Forall (fun fk => snd fk = "id") (foreign_keys t)
  ∧ rowids t (insert_row t r d) = rowids t d ++ [next_rowid (get_table t d)]
  ∧ Forall (fun i => i < next_rowid (get_table t d)) (rowids t d)
  ∧ rowids t (insert_row t r init_db) = [1].
Proof.
  split_and!.
  - by destruct t.
  - destruct t; repeat constructor.
  - unfold rowids. rewrite get_table_insert_row_same. cbn [rows].
    by rewrite fmap_app.
  - apply Forall_forall. intros i Hi. by apply next_rowid_fresh.
  - unfold rowids. rewrite get_table_insert_row_same. by destruct t.
Qed.

(** Two stores that each save their first company give different rows the
    same [id]. *)
Lemma row_ids_collide_across_devices :
  let a := CompaniesTab_on_save ascii_strip "2024-05-01" (new_company "Acme")
             (connect_db init_db) in
  let b := CompaniesTab_on_save ascii_strip "2024-05-02" (new_company "Bolt")
             (connect_db init_db) in
  var_id (fst a) = Some 1 ∧ var_id (fst b) = Some 1
  ∧ rows (t_companies (stored (snd a)))
    = [(1, company_row "2024-05-01" "Acme" (VText "") (VText "") (VText "") (VText ""))]
  ∧ rows (t_companies (stored (snd b)))
    = [(1, company_row "2024-05-02" "Bolt" (VText "") (VText "") (VText "") (VText ""))].
Proof. repeat split; reflexivity. Qed.

(** *** The sync entry points *)

(** C7 (as amended). The program binds four entry points of the sync module.
    Each is available exactly when the import of [gate_sync] succeeded at
    start-up; when it failed, every one of them is [None], the application
    still opens the store, untouched, and every Sync menu entry does
    nothing. *)
Theorem sync_entry_points_available (m : option gate_sync) :
  let names := import_gate_sync m in
  (is_Some (ensure_change_tracking names) <-> is_Some m)
  ∧ (∀ cmd, is_Some (sync_entry names cmd) <-> is_Some m)
  ∧ (∀ file cmd c,
       let names0 := import_gate_sync None in
       GateMiniCRMApp_init names0 file = connect_db file
       ∧ run_sync_command names0 cmd c = c).
Proof.
  intros names. subst names. split_and!.
  - destruct m; simpl; split; intros [x Hx]; by eauto.
  - intros cmd. destruct m, cmd; simpl; split; intros [x Hx]; by eauto.
  - intros file cmd c. split; [reflexivity | by destruct cmd].
Qed.

(** C7, the claim as stated fails: when [gate_sync] cannot be imported the
    application starts and none of the sync operations is there; choosing
    "Import Sync Pack" leaves the store as it was. *)
Lemma sync_entry_points_missing :
  let names := import_gate_sync None in
  ensure_change_tracking names = None
  ∧ export_changes_dialog names = None
  ∧ import_pack_dialog names = None
  ∧ init_device_settings_dialog names = None
  ∧ run_sync_command names ImportSyncPack (GateMiniCRMApp_init names init_db)
    = connect_db init_db.
Proof. repeat split; reflexivity. Qed.

End AppFacts.

(** ** Properties of the sync engine *)

Section SyncFacts.

Import GateSync.

(** *** What applying records leaves alone *)

Lemma merge_fields_watermarks (e : entry) (r : change_record)
    (acc : state * merge_report) :
  watermarks (fst (merge_fields e r acc)) = watermarks (fst acc)
  ∧ my_device_id (fst (merge_fields e r acc)) = my_device_id (fst acc).
Proof.
  destruct acc as [s rep]. unfold merge_fields. by case_decide.
Qed.

Lemma apply_record_watermarks (wm : state) (acc : state * merge_report)
    (r : change_record) :
  watermarks (fst (apply_record wm acc r)) = watermarks (fst acc)
  ∧ my_device_id (fst (apply_record wm acc r)) = my_device_id (fst acc).
Proof.
  destruct acc as [s rep]. unfold apply_record.
  destruct (seen wm r); [done|].
  destruct (fk_violation s r); [done|].
  destruct (operation r), (store s !! (table r, row_key r));
    try done; apply merge_fields_watermarks.
Qed.

Lemma foldl_apply_record_watermarks (wm : state) (l : list change_record)
    (acc : state * merge_report) :
  watermarks (fst (foldl (apply_record wm) acc l)) = watermarks (fst acc)
  ∧ my_device_id (fst (foldl (apply_record wm) acc l)) = my_device_id (fst acc).
Proof.
  revert acc. induction l as [|r l IH]; intros acc; [done|]. simpl.
  destruct (IH (apply_record wm acc r)) as [-> ->].
  apply apply_record_watermarks.
Qed.

Lemma apply_record_seen (wm : state) (acc : state * merge_report)
    (r : change_record) :
  seen wm r = true -> apply_record wm acc r = acc.
Proof. intros H. destruct acc as [s rep]. unfold apply_record. by rewrite H. Qed.

Lemma foldl_apply_record_seen (wm : state) (l : list change_record)
    (acc : state * merge_report) :
  Forall (fun r => seen wm r = true) l -> foldl (apply_record wm) acc l = acc.
Proof.
  induction 1 as [|r l Hr _ IH]; [done|]. simpl.
  by rewrite apply_record_seen.
Qed.

Lemma validate_in_range (p : pack) :
  validate p = true ->
  Forall (fun r => from_sequence p <= sequence r <= to_sequence p) (records p).
Proof.
  unfold validate, in_range. intros H.
  apply andb_true_iff in H as [_ H].
  rewrite forallb_forall in H. apply Forall_forall. intros r Hr.
  apply list_elem_of_In in Hr. specialize (H r Hr). simpl in H. lia.
Qed.

Lemma advance_ge (dev : string) (to : Z) (m : gmap string Z) :
  to <= advance dev to m.
Proof. unfold advance. destruct (m !! dev); lia. Qed.

Lemma advance_fixed (dev : string) (to w : Z) (m : gmap string Z) :
  to <= w -> advance dev to (<[dev := w]> m) = w.
Proof. intros H. unfold advance. rewrite lookup_insert_eq. lia. Qed.

(** *** Importing the same pack again *)

(** C2 (as amended). For a pack all of whose records carry the device id of
    its header (a Pack is the records of one exporting device): when
    importing it gives a report, importing it again into the resulting state
    gives a report with an applied count of zero, nothing skipped and the
    same watermark, and leaves that state exactly as it was; a pack that is
    rejected is rejected again, the state being untouched both times. *)
Theorem import_twice (p : pack) (s : state) :
  Forall (fun r => device_id r = pack_device_id p) (records p) ->
  match import p s with
  | (s1, inr rep1) =>
      import p s1
      = (s1, inr {| applied := 0; conflicts := []; violations := [];
                    new_watermark := new_watermark rep1 |})
  | (s1, inl e) => s1 = s ∧ import p s1 = (s, inl e)
  end.
Proof.
  intros Hdev. unfold import.
  destruct (validate p) eqn:Hv; [|done].
  pose proof (foldl_apply_record_watermarks s (records p) (s, empty_report))
    as [Hw _].
  destruct (foldl (apply_record s) (s, empty_report) (records p)) as [s' rep].
  cbn [fst] in Hw. cbn [finish].
  set (w := advance (pack_device_id p) (to_sequence p) (watermarks s)).
  set (s1 := {| my_device_id := my_device_id s'; local_sequence := local_sequence s';
                store := store s'; log := log s';
                watermarks := <[pack_device_id p := w]> (watermarks s') |}).
  rewrite foldl_apply_record_seen.
  - unfold finish. cbn [watermarks s1 new_watermark applied conflicts violations
                        empty_report].
    rewrite advance_fixed by apply advance_ge. fold w.
    rewrite insert_insert_eq. reflexivity.
  - pose proof (validate_in_range p Hv) as Hr.
    rewrite Forall_forall in Hdev, Hr. apply Forall_forall. intros r Hin.
    unfold seen. rewrite (Hdev r Hin). cbn [watermarks s1].
    rewrite lookup_insert_eq. apply Z.leb_le.
    pose proof (Hr r Hin). pose proof (advance_ge (pack_device_id p)
      (to_sequence p) (watermarks s)). fold w in H0. lia.
Qed.

(** C2, the claim as stated fails for a file that validation accepts: the
    records of [stray_pack] are not of the device its header names, the
    watermark moves for the header's device only, and the second import
    applies both records again and numbers two more local records. *)
Lemma import_twice_applies_again :
  ∃ s1 rep1 s2 rep2,
    import stray_pack (fresh "B") = (s1, inr rep1)
    ∧ import stray_pack s1 = (s2, inr rep2)
    ∧ applied rep1 = 2%nat ∧ applied rep2 = 2%nat
    ∧ local_sequence s1 = 2 ∧ local_sequence s2 = 4
    ∧ length (log s1) = 2%nat ∧ length (log s2) = 4%nat.
Proof.
  eexists _, _, _, _. split_and!; [reflexivity | reflexivity | ..];
    vm_compute; reflexivity.
Qed.

(** *** Rejected packs and skipped records *)

Lemma validate_false (p : pack) :
  validate p = false <->
  length (records p) ≠ record_count p
  ∨ in_order (records p) = false
  ∨ gapless (records p) = false
  ∨ in_range p = false.
Proof.
  unfold validate. rewrite !andb_false_iff, Nat.eqb_neq. tauto.
Qed.

Lemma violations_apply_record (wm : state) (acc : state * merge_report)
    (r x : change_record) :
  x ∈ violations (snd acc) -> x ∈ violations (snd (apply_record wm acc r)).
Proof.
  destruct acc as [s rep]. unfold apply_record. intros Hx.
  destruct (seen wm r); [done|].
  destruct (fk_violation s r).
  { simpl. apply elem_of_app. by left. }
  unfold merge_fields.
  destruct (operation r), (store s !! (table r, row_key r));
    try done; by case_decide.
Qed.

Lemma violations_foldl (wm : state) (l : list change_record)
    (acc : state * merge_report) (x : change_record) :
  x ∈ violations (snd acc) ->
  x ∈ violations (snd (foldl (apply_record wm) acc l)).
Proof.
  revert acc. induction l as [|r l IH]; intros acc Hx; [done|]. simpl.
  apply IH. by apply violations_apply_record.
Qed.

(** C6. A pack is rejected exactly when its line count differs from
    [record_count], a record is out of order, there is a gap, or a sequence
    number lies outside the declared range; the import then fails with
    [MalformedPackError], applies nothing and returns the state it was given,
    and no import fails in another way. A record of an accepted pack that
    violates a foreign key when its turn comes leaves the state as the
    records before it made it, is listed in the report, and the records after
    it are applied from that state. *)
Theorem malformed_pack_or_orphan_record (p : pack) (s : state) :
  (validate p = false <->
     length (records p) ≠ record_count p
     ∨ in_order (records p) = false
     ∨ gapless (records p) = false
     ∨ in_range p = false)
  ∧ (validate p = false -> import p s = (s, inl MalformedPackError))
  ∧ (∀ e, snd (import p s) = inl e ->
       e = MalformedPackError ∧ validate p = false ∧ fst (import p s) = s)
  ∧ (∀ pre r post,
       validate p = true -> records p = pre ++ r :: post ->
       let before := foldl (apply_record s) (s, empty_report) pre in
       seen s r = false -> fk_violation (fst before) r = true ->
       apply_record s before r = (fst before, add_violation (snd before) r)
       ∧ import p s
         = finish p s (foldl (apply_record s)
                         (fst before, add_violation (snd before) r) post)
       ∧ ∃ rep, snd (import p s) = inr rep ∧ r ∈ violations rep).
Proof.
  split_and!.
  - apply validate_false.
  - intros H. unfold import. by rewrite H.
  - intros e. unfold import. destruct (validate p).
    + unfold finish.
      by destruct (foldl (apply_record s) (s, empty_report) (records p)).
    + by intros [= <-].
  - intros pre r post Hv Hrec before Hseen Hfk.
    assert (apply_record s before r = (fst before, add_violation (snd before) r))
      as Hstep.
    { destruct before as [s1 rep1]. unfold apply_record.
      cbn [fst snd] in *. by rewrite Hseen, Hfk. }
    assert (import p s
            = finish p s (foldl (apply_record s)
                            (fst before, add_violation (snd before) r) post))
      as Himp.
    { unfold import. rewrite Hv, Hrec, foldl_app. cbn [foldl].
      fold before. by rewrite Hstep. }
    split_and!; [done..|].
    rewrite Himp.
    pose proof (violations_foldl s post
                  (fst before, add_violation (snd before) r) r) as Hin.
    destruct (foldl (apply_record s)
                (fst before, add_violation (snd before) r) post) as [s2 rep2].
    eexists. split; [reflexivity|]. cbn [violations]. apply Hin.
    cbn [snd add_violation violations]. apply elem_of_app. right.
    apply list_elem_of_here.
Qed.

Lemma malformed_pack_or_orphan_record_witness :
  let r2 := written_by "A" 2 App.contacts "p1" App.op_insert
              {["name" := Text "Ann"; "company_id" := Text "zz"]} 11 in
  (∃ rep, snd (import orphan_pack (fresh "B")) = inr rep ∧ r2 ∈ violations rep)
  ∧ (applied <$> (match snd (import orphan_pack (fresh "B")) with
                  | inr rep => Some rep | inl _ => None end)) = Some 2%nat
  ∧ is_Some (store (fst (import orphan_pack (fresh "B"))) !! (App.companies, "c2"))
  ∧ import (without_second_line orphan_pack) (fresh "B")
    = (fresh "B", inl MalformedPackError).
Proof.
  intros r2.
  destruct (malformed_pack_or_orphan_record orphan_pack (fresh "B"))
    as (_ & _ & _ & H).
  destruct (malformed_pack_or_orphan_record (without_second_line orphan_pack) (fresh "B"))
    as (_ & Hbad & _).
  split_and!.
  - apply (H [written_by "A" 1 App.companies "c1" App.op_insert
               {["name" := Text "Acme"]} 10]
             r2
             [written_by "A" 3 App.companies "c2" App.op_insert
               {["name" := Text "Bolt"]} 12]); reflexivity.
  - reflexivity.
  - vm_compute. by eexists.
  - apply Hbad. reflexivity.
Defined.

(** *** Packs of one record *)









(** *** Deletes *)










(** *** Competing updates *)











(** *** The log stays within the sequence counter *)


Lemma capture_log_bounded t k op ch ts o m (s : state) :
  log_bounded s -> log_bounded (capture t k op ch ts o (with_store m s)).
Proof.
  unfold log_bounded. cbn. intros H. apply Forall_app. split.
  - eapply Forall_impl; [exact H|]. cbn. intros r Hr. lia.
  - repeat constructor. cbn. lia.
Qed.


Lemma local_update_log_bounded t k f v now (s : state) :
  log_bounded s -> log_bounded (local_update t k f v now s).
Proof.
  intros H. unfold local_update. destruct (store s !! (t, k)); [|done].
  case_decide; [done|]. by apply capture_log_bounded.
Qed.

Lemma local_delete_log_bounded t k now (s : state) :
  log_bounded s -> log_bounded (local_delete t k now s).
Proof.
  intros H. unfold local_delete. destruct (store s !! (t, k)); [|done].
  by apply capture_log_bounded.
Qed.



(** *** The theorems at concrete devices *)

Lemma import_twice_witness :
  match import orphan_pack (fresh "B") with
  | (s1, inr rep1) =>
      import orphan_pack s1
      = (s1, inr {| applied := 0; conflicts := []; violations := [];
                    new_watermark := new_watermark rep1 |})
  | (s1, inl e) => s1 = fresh "B" ∧ import orphan_pack s1 = (fresh "B", inl e)
  end.
Proof.
  apply import_twice. unfold orphan_pack. cbn [records pack_device_id].
  repeat constructor.
Defined.







End SyncFacts.

(** ** Further properties of the application *)

Section MoreAppFacts.

Import App.

(** *** Statements, table by table *)

Lemma get_table_update_row_same (t : table_name) (i : Z) (f : row -> row) (d : db) :
  get_table t (update_row t i f d)
  = {| rows := map (fun p => if decide (fst p = i) then (fst p, f (snd p)) else p)
                   (rows (get_table t d));
       last_id := last_id (get_table t d) |}.
Proof. unfold update_row. by rewrite get_table_fire, get_table_set_same. Qed.

Lemma get_table_update_row_other (t t' : table_name) (i : Z) (f : row -> row) (d : db) :
  t ≠ t' -> get_table t' (update_row t i f d) = get_table t' d.
Proof.
  intros H. unfold update_row. by rewrite get_table_fire, get_table_set_other.
Qed.

Lemma get_table_delete_row_same (t : table_name) (i : Z) (d : db) :
  get_table t (delete_row t i d)
  = {| rows := filter (fun p => fst p ≠ i) (rows (get_table t d));
       last_id := last_id (get_table t d) |}.
Proof. unfold delete_row. by rewrite get_table_fire, get_table_set_same. Qed.

Lemma get_table_delete_row_other (t t' : table_name) (i : Z) (d : db) :
  t ≠ t' -> get_table t' (delete_row t i d) = get_table t' d.
Proof.
  intros H. unfold delete_row. by rewrite get_table_fire, get_table_set_other.
Qed.

Lemma settings_set_table (t : table_name) (x : table) (d : db) :
  settings (set_table t x d) = settings d.
Proof. by destruct t. Qed.

Lemma settings_fire (t : table_name) (op : operation) (ids : list Z) (d : db) :
  settings (fire t op ids d) = settings d.
Proof. unfold fire. by case_decide. Qed.

Lemma settings_insert_row (t : table_name) (r : row) (d : db) :
  settings (insert_row t r d) = settings d.
Proof. unfold insert_row. by rewrite settings_fire, settings_set_table. Qed.

Lemma map_fst_update (i : Z) (f : row -> row) (l : list (Z * row)) :
  map fst (map (fun p => if decide (fst p = i) then (fst p, f (snd p)) else p) l)
  = map fst l.
Proof.
  induction l as [|p l IH]; [done|]. cbn [map]. rewrite IH.
  by case_decide.
Qed.

Lemma map_fst_filter_ne (i : Z) (l : list (Z * row)) :
  map fst (filter (fun p => fst p ≠ i) l) = filter (fun j => j ≠ i) (map fst l).
Proof.
  induction l as [|p l IH]; [done|]. cbn [map].
  rewrite !filter_cons. cbn [fst]. case_decide; cbn [map]; by rewrite IH.
Qed.

(** *** Ids stay distinct and are not handed out twice *)

Lemma table_ok_insert (x : table) (r : row) :
  table_ok x ->
  table_ok {| rows := rows x ++ [(next_rowid x, r)]; last_id := next_rowid x |}.
Proof.
  intros [Hnd Hle]. split; cbn [rows last_id]; rewrite map_app; cbn [map fst].
  - apply NoDup_app. split_and!; [done| |apply NoDup_singleton].
    intros i Hi Hin. apply list_elem_of_singleton in Hin. subst i.
    apply next_rowid_fresh in Hi. lia.
  - apply Forall_app. split; [|by repeat constructor].
    apply Forall_forall. intros i Hi. apply next_rowid_fresh in Hi. lia.
Qed.

Lemma table_ok_update (x : table) (i : Z) (f : row -> row) :
  table_ok x ->
  table_ok {| rows := map (fun p => if decide (fst p = i) then (fst p, f (snd p)) else p)
                          (rows x);
              last_id := last_id x |}.
Proof. intros [Hnd Hle]. split; cbn [rows last_id]; by rewrite map_fst_update. Qed.

Lemma table_ok_delete (x : table) (i : Z) :
  table_ok x ->
  table_ok {| rows := filter (fun p => fst p ≠ i) (rows x); last_id := last_id x |}.
Proof.
  intros [Hnd Hle]. split; cbn [rows last_id]; rewrite map_fst_filter_ne.
  - by apply NoDup_filter.
  - apply Forall_forall. intros j Hj. apply list_elem_of_filter in Hj as [_ Hj].
    rewrite Forall_forall in Hle. by apply Hle.
Qed.

Lemma store_ok_insert_row (t : table_name) (r : row) (d : db) :
  store_ok d -> store_ok (insert_row t r d).
Proof.
  intros H t'. destruct (decide (t = t')) as [<-|Hne].
  - rewrite get_table_insert_row_same. apply table_ok_insert, H.
  - rewrite get_table_insert_row_other by done. apply H.
Qed.

Lemma store_ok_update_row (t : table_name) (i : Z) (f : row -> row) (d : db) :
  store_ok d -> store_ok (update_row t i f d).
Proof.
  intros H t'. destruct (decide (t = t')) as [<-|Hne].
  - rewrite get_table_update_row_same. apply table_ok_update, H.
  - rewrite get_table_update_row_other by done. apply H.
Qed.

Lemma store_ok_delete_row (t : table_name) (i : Z) (d : db) :
  store_ok d -> store_ok (delete_row t i d).
Proof.
  intros H t'. destruct (decide (t = t')) as [<-|Hne].
  - rewrite get_table_delete_row_same. apply table_ok_delete, H.
  - rewrite get_table_delete_row_other by done. apply H.
Qed.

Lemma store_ok_init_db : store_ok init_db.
Proof. intros t. destruct t; split; constructor. Qed.

Section StoreFacts.

Variable strip : string -> string.
Variable today : string.

Lemma store_ok_resolve_company (company : string) (d : db) :
  store_ok d -> store_ok (fst (resolve_company today company d)).
Proof.
  intros H. unfold resolve_company. destruct (String.eqb company ""); [done|].
  destruct (find_company company d); [done|]. by apply store_ok_insert_row.
Qed.

Lemma store_ok_import_company (st : db * nat) (r : csv_record) :
  store_ok (fst st) -> store_ok (fst (import_company strip today st r)).
Proof.
  destruct st as [d a]. intros H. unfold import_company.
  destruct (String.eqb (csv_name strip r) ""); [done|].
  by apply store_ok_insert_row.
Qed.

Lemma store_ok_import_contact (st : db * nat) (r : csv_record) :
  store_ok (fst st) -> store_ok (fst (import_contact strip today st r)).
Proof.
  destruct st as [d a]. intros H. unfold import_contact.
  destruct (String.eqb (csv_name strip r) ""); [done|].
  pose proof (store_ok_resolve_company (csv_company strip r) d H) as H1.
  destruct (resolve_company today (csv_company strip r) d) as [d1 ci].
  by apply store_ok_insert_row.
Qed.

Lemma store_ok_foldl {A} (step : db * nat -> A -> db * nat) (l : list A)
    (st : db * nat) :
  (∀ st x, store_ok (fst st) -> store_ok (fst (step st x))) ->
  store_ok (fst st) -> store_ok (fst (foldl step st l)).
Proof.
  intros Hstep. revert st. induction l as [|x l IH]; intros st H; [done|].
  cbn [foldl]. by apply IH, Hstep.
Qed.

(** X1. In a store where, in every table, the ids are distinct and none is
    beyond the table's counter (as in the store [init_db] makes), every
    editing path and the CSV import keep it so: [CompaniesTab.on_save],
    [CompaniesTab.on_delete], [DealsTab.on_delete] and [ask_import_csv] of
    any kind and file, also of a file whose read raises part-way. Whenever
    the import reports a count, what it has committed is such a store; when
    it reports none, it has committed nothing. *)
Theorem editing_keeps_ids_distinct (c : conn) :
  store_ok (pending c) ->
  (∀ f, store_ok (pending (snd (CompaniesTab_on_save strip today f c))))
  ∧ (∀ id confirm, store_ok (pending (snd (CompaniesTab_on_delete id confirm c))))
  ∧ (∀ id confirm, store_ok (pending (snd (DealsTab_on_delete id confirm c))))
  ∧ (∀ kind file,
       store_ok (pending (fst (ask_import_csv strip today kind file c)))
       ∧ (snd (ask_import_csv strip today kind file c) ≠ None ->
          store_ok (stored (fst (ask_import_csv strip today kind file c))))
       ∧ (snd (ask_import_csv strip today kind file c) = None ->
          stored (fst (ask_import_csv strip today kind file c)) = stored c)).
Proof.
  intros H. split_and!.
  - intros f. unfold CompaniesTab_on_save.
    destruct (String.eqb (strip (var_name f)) ""); [done|].
    destruct (var_id f); cbn [snd commit execute pending].
    + by apply store_ok_update_row.
    + by apply store_ok_insert_row.
  - intros [i|] [|]; cbn [CompaniesTab_on_delete snd commit execute pending];
      try done. by apply store_ok_delete_row.
  - intros [i|] [|]; cbn [DealsTab_on_delete snd commit execute pending];
      try done. by apply store_ok_delete_row.
  - intros kind file.
    assert (store_ok (pending (fst (ask_import_csv strip today kind file c))))
      as Hok.
    { apply (ask_import_csv_invariant strip today store_ok);
        [apply store_ok_import_company | apply store_ok_import_contact | done]. }
    pose proof (ask_import_csv_stored strip today kind file c) as Hst.
    cbn zeta in Hst.
    destruct (snd (ask_import_csv strip today kind file c));
      split_and!; [done | by rewrite Hst | done | done | done | done].
Qed.

(** X2. An id is not handed out twice: in such a store, when the company with
    id [i] is deleted and a new company is saved afterwards, the new company
    gets an id larger than [i] and than every id the table held, also when
    [i] was the largest. *)
Theorem deleted_id_not_reused (c : conn) (i : Z) (f : company_form) :
  store_ok (pending c) ->
  i ∈ rowids companies (pending c) ->
  strip (var_name f) ≠ "" -> var_id f = None ->
  let c1 := snd (CompaniesTab_on_delete (Some i) true c) in
  let f2 := fst (CompaniesTab_on_save strip today f c1) in
  ∃ j, var_id f2 = Some j ∧ i < j
       ∧ Forall (fun k => k < j) (rowids companies (pending c))
       ∧ rowids companies (pending (snd (CompaniesTab_on_save strip today f c1)))
         = filter (fun k => k ≠ i) (rowids companies (pending c)) ++ [j].
Proof.
  intros Hok Hi Hname Hnew c1 f2. subst f2 c1.
  cbn [CompaniesTab_on_delete snd]. unfold CompaniesTab_on_save.
  apply String.eqb_neq in Hname. rewrite Hname, Hnew.
  cbn [fst snd var_id commit execute pending].
  eexists. split; [reflexivity|].
  destruct (Hok companies) as [_ Hle]. unfold rowids in *.
  unfold lastrowid. rewrite get_table_delete_row_same.
  assert (∀ k, k ∈ map fst (rows (get_table companies (pending c))) ->
               k < next_rowid
                     {| rows := filter (fun p => fst p ≠ i)
                                  (rows (get_table companies (pending c)));
                        last_id := last_id (get_table companies (pending c)) |})
    as Hlt.
  { intros k Hk. rewrite Forall_forall in Hle. specialize (Hle k Hk).
    unfold next_rowid. cbn [last_id]. lia. }
  split_and!.
  - by apply Hlt.
  - apply Forall_forall. exact Hlt.
  - rewrite get_table_insert_row_same, get_table_delete_row_same.
    cbn [rows]. by rewrite map_app, map_fst_filter_ne.
Qed.

End StoreFacts.

Lemma editing_keeps_ids_distinct_witness :
  store_ok (pending (snd (CompaniesTab_on_save ascii_strip "2024-05-01"
                            (new_company "Acme") (connect_db init_db)))).
Proof.
  destruct (editing_keeps_ids_distinct ascii_strip "2024-05-01" (connect_db init_db))
    as [H _].
  - exact store_ok_init_db.
  - apply H.
Defined.

(** *** Reading back what was written *)

Lemma select_by_id_None (t : table_name) (i : Z) (d : db) :
  select_by_id t i d = None <-> i ∉ rowids t d.
Proof.
  unfold select_by_id, rowids.
  induction (rows (get_table t d)) as [|p l IH]; cbn [find map].
  - split; [intros _; apply not_elem_of_nil | done].
  - case_bool_decide as Hp; cbn.
    + split; [done|]. intros H. destruct H. rewrite Hp. apply list_elem_of_here.
    + rewrite IH, not_elem_of_cons. split; [by split | by intros [_ ?]].
Qed.

Lemma select_by_id_insert_row (t : table_name) (r : row) (d : db) :
  select_by_id t (next_rowid (get_table t d)) (insert_row t r d) = Some r.
Proof.
  unfold select_by_id. rewrite get_table_insert_row_same. cbn [rows].
  pose proof (next_rowid_fresh (get_table t d)) as Hfresh.
  generalize dependent (next_rowid (get_table t d)). intros n Hfresh.
  induction (rows (get_table t d)) as [|p l IH]; cbn [app find].
  - by rewrite bool_decide_eq_true_2.
  - rewrite bool_decide_eq_false_2.
    + apply IH. intros i Hi. apply Hfresh. cbn [map]. by apply list_elem_of_further.
    + intros Hp. specialize (Hfresh (fst p)). cbn [map] in Hfresh.
      pose proof (Hfresh (list_elem_of_here _ _)). lia.
Qed.

Lemma select_by_id_insert_row_old (t : table_name) (r : row) (d : db) (j : Z) :
  j ∈ rowids t d -> select_by_id t j (insert_row t r d) = select_by_id t j d.
Proof.
  unfold select_by_id, rowids. rewrite get_table_insert_row_same. cbn [rows].
  induction (rows (get_table t d)) as [|p l IH]; cbn [app find map]; intros Hj.
  - by apply elem_of_nil in Hj.
  - case_bool_decide as Hp; [done|].
    apply elem_of_cons in Hj as [Hj | Hj]; [congruence | by apply IH].
Qed.

Lemma select_by_id_update_row (t : table_name) (i j : Z) (f : row -> row) (d : db) :
  select_by_id t j (update_row t i f d)
  = if decide (j = i) then f <$> select_by_id t j d else select_by_id t j d.
Proof.
  unfold select_by_id. rewrite get_table_update_row_same. cbn [rows].
  induction (rows (get_table t d)) as [|p l IH]; cbn [map find].
  - by case_decide.
  - destruct (decide (fst p = i)) as [Hp|Hp]; cbn [fst].
    + case_bool_decide as Hj; [|exact IH].
      rewrite decide_True by congruence. done.
    + case_bool_decide as Hj; [|exact IH].
      rewrite decide_False by congruence. done.
Qed.

Lemma select_by_id_delete_row (t : table_name) (i j : Z) (d : db) :
  select_by_id t j (delete_row t i d)
  = if decide (j = i) then None else select_by_id t j d.
Proof.
  unfold select_by_id. rewrite get_table_delete_row_same. cbn [rows].
  induction (rows (get_table t d)) as [|p l IH].
  - by case_decide.
  - rewrite filter_cons. destruct (decide (fst p ≠ i)) as [Hp|Hp]; cbn [find].
    + case_bool_decide as Hj; [|exact IH].
      rewrite decide_False by congruence. done.
    + case_bool_decide as Hj; [|exact IH].
      apply dec_stable in Hp. assert (j = i) as Hji by congruence.
      rewrite IH. by rewrite !decide_True.
Qed.

Lemma rows_update_row_absent (t : table_name) (i : Z) (f : row -> row) (d : db) :
  i ∉ rowids t d -> get_table t (update_row t i f d) = get_table t d.
Proof.
  intros Hi. rewrite get_table_update_row_same. unfold rowids in Hi.
  destruct (get_table t d) as [l n]. cbn [rows last_id] in *. f_equal.
  induction l as [|p l IH]; [done|]. cbn [map] in *.
  apply not_elem_of_cons in Hi as [Hp Hi].
  rewrite decide_False by congruence. by rewrite IH.
Qed.

Section RoundTripFacts.

Variable strip : string -> string.
Variable today : string.
Variable tk_str : value -> string.

Lemma company_row_reads (name phone email website address : string) (id : Z) :
  let r := company_row today name (VText phone) (VText email) (VText website)
             (VText address) in
  {| var_id := Some id; var_name := shown tk_str (r !! "name");
     var_phone := shown_or_empty tk_str (r !! "phone");
     var_email := shown_or_empty tk_str (r !! "email");
     var_website := shown_or_empty tk_str (r !! "website");
     txt_address := shown_or_empty tk_str (r !! "address") |}
  = {| var_id := Some id; var_name := name; var_phone := phone;
       var_email := email; var_website := website; txt_address := address |}.
Proof. reflexivity. Qed.

Lemma company_update_reads (name phone email website address : string) (id : Z)
    (r0 : row) :
  let r := company_update name phone email website address r0 in
  {| var_id := Some id; var_name := shown tk_str (r !! "name");
     var_phone := shown_or_empty tk_str (r !! "phone");
     var_email := shown_or_empty tk_str (r !! "email");
     var_website := shown_or_empty tk_str (r !! "website");
     txt_address := shown_or_empty tk_str (r !! "address") |}
  = {| var_id := Some id; var_name := name; var_phone := phone;
       var_email := email; var_website := website; txt_address := address |}.
Proof.
  cbn zeta. unfold company_update.
  rewrite !lookup_insert_eq.
  repeat (rewrite lookup_insert_ne by done; rewrite ?lookup_insert_eq).
  done.
Qed.

Lemma company_update_created_at (name phone email website address : string)
    (r0 : row) :
  company_update name phone email website address r0 !! "created_at"
  = r0 !! "created_at".
Proof. unfold company_update. by repeat (rewrite lookup_insert_ne by done). Qed.

(** X3. What [CompaniesTab.on_save] stores, [CompaniesTab.on_select] shows:
    after saving a form with a name, as a new company or over a company that
    exists, selecting the id the form then carries fills any form with that
    id and the stripped fields of the saved form. *)
Theorem company_save_then_select (f f0 : company_form) (c : conn) :
  strip (var_name f) ≠ "" ->
  (∀ i, var_id f = Some i -> i ∈ rowids companies (pending c)) ->
  let res := CompaniesTab_on_save strip today f c in
  is_Some (var_id (fst res))
  ∧ CompaniesTab_on_select tk_str (var_id (fst res)) f0 (snd res)
    = stripped strip (var_id (fst res)) f.
Proof.
  intros Hname Hid res. subst res. unfold CompaniesTab_on_save.
  apply String.eqb_neq in Hname. rewrite Hname.
  destruct (var_id f) as [i|] eqn:Hf; cbn [fst snd].
  - split; [by rewrite Hf|]. rewrite Hf. unfold CompaniesTab_on_select.
    cbn [commit execute pending].
    rewrite select_by_id_update_row, decide_True by done.
    specialize (Hid i eq_refl).
    destruct (select_by_id companies i (pending c)) as [r0|] eqn:Hr0.
    + cbn [fmap option_fmap option_map].
      apply (company_update_reads (strip (var_name f)) (strip (var_phone f))
               (strip (var_email f)) (strip (var_website f))
               (strip (txt_address f)) i r0).
    + apply select_by_id_None in Hr0. by destruct Hr0.
  - cbn [var_id]. split; [by eexists|]. unfold CompaniesTab_on_select.
    cbn [commit execute pending]. unfold lastrowid.
    rewrite select_by_id_insert_row. apply company_row_reads.
Qed.

(** X4. Saving over a company changes that company only: the ids of the
    table, every other company, every other table and the [created_at] of
    the company itself stay as they were. When the id in the form belongs to
    no company any more, nothing is stored and nothing is added. *)
Theorem company_update_effect (f : company_form) (c : conn) (i : Z) :
  strip (var_name f) ≠ "" -> var_id f = Some i ->
  let c' := snd (CompaniesTab_on_save strip today f c) in
  rowids companies (pending c') = rowids companies (pending c)
  ∧ (∀ j, j ≠ i ->
        select_by_id companies j (pending c')
        = select_by_id companies j (pending c))
  ∧ column_of companies i "created_at" (pending c')
    = column_of companies i "created_at" (pending c)
  ∧ (∀ t, t ≠ companies -> get_table t (pending c') = get_table t (pending c))
  ∧ (i ∉ rowids companies (pending c) ->
     t_companies (pending c') = t_companies (pending c)).
Proof.
  intros Hname Hf c'. subst c'. unfold CompaniesTab_on_save.
  apply String.eqb_neq in Hname. rewrite Hname, Hf.
  cbn [snd commit execute pending]. split_and!.
  - unfold rowids. rewrite get_table_update_row_same. cbn [rows].
    apply map_fst_update.
  - intros j Hj. by rewrite select_by_id_update_row, decide_False.
  - unfold column_of. rewrite select_by_id_update_row, decide_True by done.
    destruct (select_by_id companies i (pending c)) as [r0|]; [|done].
    cbn. apply company_update_created_at.
  - intros t Ht. by apply get_table_update_row_other.
  - intros Hi. by apply (rows_update_row_absent companies).
Qed.

(** X5. [CompaniesTab.on_delete], once confirmed, removes the company with
    the id in the form and nothing else of the table: that id can no longer
    be selected, every other company reads as before, the change is
    committed and the form loses its id. With no id in the form, or when the
    question is answered no, nothing happens. *)
Theorem company_delete_effect (f0 : company_form) (c : conn) (i : Z) :
  let res := CompaniesTab_on_delete (Some i) true c in
  fst res = None
  ∧ stored (snd res) = pending (snd res)
  ∧ (i ∉ rowids companies (pending (snd res)))
  ∧ CompaniesTab_on_select tk_str (Some i) f0 (snd res) = f0
  ∧ (∀ j, j ≠ i ->
        select_by_id companies j (pending (snd res))
        = select_by_id companies j (pending c))
  ∧ CompaniesTab_on_delete (Some i) false c = (Some i, c)
  ∧ (∀ confirm, CompaniesTab_on_delete None confirm c = (None, c)).
Proof.
  cbn [CompaniesTab_on_delete fst snd commit execute pending stored].
  assert (select_by_id companies i (delete_row companies i (pending c)) = None)
    as Hgone by (by rewrite select_by_id_delete_row, decide_True).
  split_and!; try done.
  - by apply select_by_id_None.
  - unfold CompaniesTab_on_select. cbn [pending commit execute]. by rewrite Hgone.
  - intros j Hj. by rewrite select_by_id_delete_row, decide_False.
Qed.

End RoundTripFacts.

Lemma store_ok_company_saved (strip : string -> string) (today : string)
    (f : company_form) (c : conn) :
  store_ok (pending c) ->
  store_ok (pending (snd (CompaniesTab_on_save strip today f c))).
Proof.
  intros H. unfold CompaniesTab_on_save.
  destruct (String.eqb (strip (var_name f)) ""); [done|].
  destruct (var_id f); cbn [snd commit execute pending].
  - by apply store_ok_update_row.
  - by apply store_ok_insert_row.
Qed.

Lemma deleted_id_not_reused_witness :
  let c := snd (CompaniesTab_on_save ascii_strip "2024-05-01" (new_company "Acme")
                  (connect_db init_db)) in
  let c1 := snd (CompaniesTab_on_delete (Some 1) true c) in
  ∃ j, var_id (fst (CompaniesTab_on_save ascii_strip "2024-05-02"
                      (new_company "Bolt") c1)) = Some j
       ∧ 1 < j.
Proof.
  intros c c1.
  destruct (deleted_id_not_reused ascii_strip "2024-05-02" c 1 (new_company "Bolt"))
    as (j & Hj & Hlt & _).
  - apply store_ok_company_saved, store_ok_init_db.
  - vm_compute. apply list_elem_of_here.
  - vm_compute. discriminate.
  - reflexivity.
  - exists j. split; [exact Hj | exact Hlt].
Defined.

Lemma company_save_then_select_witness :
  CompaniesTab_on_select (fun _ => "?") (Some 1) (new_company "")
    (snd (CompaniesTab_on_save ascii_strip "2024-05-01" (new_company " Acme ")
            (connect_db init_db)))
  = stripped ascii_strip (Some 1) (new_company " Acme ").
Proof.
  destruct (company_save_then_select ascii_strip "2024-05-01" (fun _ => "?")
              (new_company " Acme ") (new_company "") (connect_db init_db))
    as [_ H].
  - vm_compute. discriminate.
  - intros i Hi. discriminate Hi.
  - exact H.
Defined.

Lemma company_update_effect_witness :
  let c := snd (CompaniesTab_on_save ascii_strip "2024-05-01" (new_company "Acme")
                  (connect_db init_db)) in
  let f := {| var_id := Some 1; var_name := "Acme Ltd"; var_phone := "555";
              var_email := ""; var_website := ""; txt_address := "" |} in
  column_of companies 1 "created_at"
    (pending (snd (CompaniesTab_on_save ascii_strip "2024-06-30" f c)))
  = Some (VText "2024-05-01").
Proof.
  intros c f.
  destruct (company_update_effect ascii_strip "2024-06-30" f c 1)
    as (_ & _ & H & _).
  - vm_compute. discriminate.
  - reflexivity.
  - rewrite H. reflexivity.
Defined.

(** *** What an import leaves in place *)

Lemma only_appends_refl (d : db) : only_appends d d.
Proof. by split_and!. Qed.

Lemma only_appends_trans (d1 d2 d3 : db) :
  only_appends d1 d2 -> only_appends d2 d3 -> only_appends d1 d3.
Proof.
  intros (A1 & A2 & A3 & A4) (B1 & B2 & B3 & B4). split_and!.
  - by etrans.
  - by etrans.
  - congruence.
  - intros t H1 H2. rewrite B4, A4; done.
Qed.

Lemma only_appends_insert_company (r : row) (d : db) :
  only_appends d (insert_row companies r d).
Proof.
  split_and!.
  - pose proof (get_table_insert_row_same companies r d) as H.
    cbn [get_table] in H. rewrite H. cbn [rows]. by apply prefix_app_r.
  - by rewrite t_contacts_insert_company.
  - apply settings_insert_row.
  - intros t H1 H2. apply get_table_insert_row_other. congruence.
Qed.

Lemma only_appends_insert_contact (r : row) (d : db) :
  only_appends d (insert_row contacts r d).
Proof.
  split_and!.
  - by rewrite t_companies_insert_contact.
  - rewrite rows_insert_contact. by apply prefix_app_r.
  - apply settings_insert_row.
  - intros t H1 H2. apply get_table_insert_row_other. congruence.
Qed.

Lemma companies_named_insert (r : row) (s : string) (d : db) :
  r !! "name" = Some (VText s) -> s ≠ "" ->
  companies_named d -> companies_named (insert_row companies r d).
Proof.
  intros Hr Hs H. unfold companies_named.
  pose proof (get_table_insert_row_same companies r d) as Hi.
  cbn [get_table] in Hi. rewrite Hi. cbn [rows].
  apply Forall_app. split; [done|]. repeat constructor. by exists s.
Qed.

Lemma company_row_name (today name : string) (a b c e : value) :
  company_row today name a b c e !! "name" = Some (VText name).
Proof. unfold company_row. apply lookup_insert_eq. Qed.

Lemma find_company_None (name : string) (d : db) :
  find_company name d = None -> Some (VText name) ∉ company_names d.
Proof.
  unfold find_company, company_names.
  induction (rows (t_companies d)) as [|p l IH]; cbn [find map]; intros H.
  - apply not_elem_of_nil.
  - destruct (snd p !! "name") as [[| | |s]|] eqn:Hp;
      try (apply not_elem_of_cons; split; [done | by apply IH]).
    destruct (String.eqb s name) eqn:Hs; [done|].
    apply String.eqb_neq in Hs.
    apply not_elem_of_cons. split; [congruence | by apply IH].
Qed.

Section ImportInvariants.

Variable strip : string -> string.
Variable today : string.

Lemma only_appends_resolve_company (company : string) (d : db) :
  only_appends d (fst (resolve_company today company d)).
Proof.
  unfold resolve_company. destruct (String.eqb company "");
    [apply only_appends_refl|].
  destruct (find_company company d); [apply only_appends_refl|].
  apply only_appends_insert_company.
Qed.

Lemma only_appends_import_company (d : db) (a : nat) (r : csv_record) :
  only_appends d (fst (import_company strip today (d, a) r)).
Proof.
  unfold import_company. destruct (String.eqb (csv_name strip r) "");
    [apply only_appends_refl | apply only_appends_insert_company].
Qed.

Lemma only_appends_import_contact (d : db) (a : nat) (r : csv_record) :
  only_appends d (fst (import_contact strip today (d, a) r)).
Proof.
  unfold import_contact. destruct (String.eqb (csv_name strip r) "");
    [apply only_appends_refl|].
  pose proof (only_appends_resolve_company (csv_company strip r) d) as H.
  destruct (resolve_company today (csv_company strip r) d) as [d1 ci].
  eapply only_appends_trans; [exact H | apply only_appends_insert_contact].
Qed.

Lemma only_appends_foldl (step : db * nat -> csv_record -> db * nat)
    (l : list csv_record) (d : db) (a : nat) :
  (∀ d a r, only_appends d (fst (step (d, a) r))) ->
  only_appends d (fst (foldl step (d, a) l)).
Proof.
  intros Hstep. revert d a. induction l as [|r l IH]; intros d a;
    [apply only_appends_refl|].
  cbn [foldl]. specialize (Hstep d a r).
  destruct (step (d, a) r) as [d1 a1]. eapply only_appends_trans; [exact Hstep|].
  apply IH.
Qed.

(** X6. [ask_import_csv] only adds rows: whatever the kind and the file, the
    companies and contacts present before are still there afterwards,
    unchanged and in place, and the settings and every other table are as
    they were. *)
Theorem import_only_appends (kind : string) (file : chosen_file) (c : conn) :
  only_appends (pending c) (pending (fst (ask_import_csv strip today kind file c))).
Proof.
  apply (ask_import_csv_invariant strip today (only_appends (pending c))).
  - intros [d a] x H. eapply only_appends_trans; [exact H|].
    apply only_appends_import_company.
  - intros [d a] x H. eapply only_appends_trans; [exact H|].
    apply only_appends_import_contact.
  - apply only_appends_refl.
Qed.

Lemma companies_named_resolve_company (company : string) (d : db) :
  companies_named d -> companies_named (fst (resolve_company today company d)).
Proof.
  intros H. unfold resolve_company.
  destruct (String.eqb company "") eqn:Hc; [done|].
  destruct (find_company company d); [done|]. cbn [fst].
  apply (companies_named_insert _ company); [apply company_row_name| |done].
  by apply String.eqb_neq.
Qed.

Lemma companies_named_import_company (st : db * nat) (r : csv_record) :
  companies_named (fst st) ->
  companies_named (fst (import_company strip today st r)).
Proof.
  destruct st as [d a]. intros H. unfold import_company.
  destruct (String.eqb (csv_name strip r) "") eqn:Hn; [done|]. cbn [fst].
  apply (companies_named_insert _ (csv_name strip r));
    [apply company_row_name| |done].
  by apply String.eqb_neq.
Qed.

Lemma companies_named_import_contact (st : db * nat) (r : csv_record) :
  companies_named (fst st) ->
  companies_named (fst (import_contact strip today st r)).
Proof.
  destruct st as [d a]. intros H. unfold import_contact.
  destruct (String.eqb (csv_name strip r) ""); [done|].
  pose proof (companies_named_resolve_company (csv_company strip r) d H) as H1.
  destruct (resolve_company today (csv_company strip r) d) as [d1 ci].
  cbn [fst] in *. unfold companies_named. by rewrite t_companies_insert_contact.
Qed.

Lemma invariant_foldl {A} (P : db -> Prop) (step : db * nat -> A -> db * nat)
    (l : list A) (st : db * nat) :
  (∀ st x, P (fst st) -> P (fst (step st x))) ->
  P (fst st) -> P (fst (foldl step st l)).
Proof.
  intros Hstep. revert st. induction l as [|x l IH]; intros st H; [done|].
  cbn [foldl]. by apply IH, Hstep.
Qed.

(** X7. No path stores a company without a name: when every company has a
    non-empty text as its name, this is still so after
    [CompaniesTab.on_save], [CompaniesTab.on_delete] and [ask_import_csv] of
    either kind, including the companies a contacts file brings along. *)
Theorem companies_stay_named (c : conn) :
  companies_named (pending c) ->
  (∀ f, companies_named (pending (snd (CompaniesTab_on_save strip today f c))))
  ∧ (∀ id confirm,
       companies_named (pending (snd (CompaniesTab_on_delete id confirm c))))
  ∧ (∀ kind file,
       companies_named (pending (fst (ask_import_csv strip today kind file c)))).
Proof.
  intros H. split_and!.
  - intros f. unfold CompaniesTab_on_save.
    destruct (String.eqb (strip (var_name f)) "") eqn:Hn; [done|].
    apply String.eqb_neq in Hn.
    destruct (var_id f) as [i|]; cbn [snd commit execute pending].
    + unfold companies_named.
      pose proof (get_table_update_row_same companies i
        (company_update (strip (var_name f)) (strip (var_phone f))
           (strip (var_email f)) (strip (var_website f)) (strip (txt_address f)))
        (pending c)) as Hu.
      cbn [get_table] in Hu. rewrite Hu. cbn [rows].
      apply Forall_map. eapply Forall_impl; [exact H|].
      intros p Hp. cbn beta. case_decide; [|done]. cbn [snd].
      exists (strip (var_name f)). split; [|done].
      unfold company_update. apply lookup_insert_eq.
    + apply (companies_named_insert _ (strip (var_name f)));
        [apply company_row_name | done..].
  - intros [i|] [|]; cbn [CompaniesTab_on_delete snd commit execute pending];
      try done.
    unfold companies_named.
    pose proof (get_table_delete_row_same companies i (pending c)) as Hd.
    cbn [get_table] in Hd. rewrite Hd. cbn [rows].
    apply Forall_forall. intros p Hp. apply list_elem_of_filter in Hp as [_ Hp].
    unfold companies_named in H. rewrite Forall_forall in H. by apply H.
  - intros kind file.
    apply (ask_import_csv_invariant strip today companies_named);
      [apply companies_named_import_company
      |apply companies_named_import_contact | done].
Qed.

Lemma names_distinct_resolve_company (company : string) (d : db) :
  NoDup (company_names d) ->
  NoDup (company_names (fst (resolve_company today company d))).
Proof.
  intros H. unfold resolve_company. destruct (String.eqb company ""); [done|].
  destruct (find_company company d) eqn:Hf; [done|]. cbn [fst].
  unfold company_names.
  pose proof (get_table_insert_row_same companies
                (company_row today company VNull VNull VNull VNull) d) as Hi.
  cbn [get_table] in Hi. rewrite Hi. cbn [rows]. rewrite map_app. cbn [map snd].
  rewrite company_row_name. apply NoDup_app. split_and!; [done| |apply NoDup_singleton].
  intros x Hx Hin. apply list_elem_of_singleton in Hin. subst x.
  by apply (find_company_None company d).
Qed.

Lemma names_distinct_import_contact (st : db * nat) (r : csv_record) :
  NoDup (company_names (fst st)) ->
  NoDup (company_names (fst (import_contact strip today st r))).
Proof.
  destruct st as [d a]. intros H. unfold import_contact.
  destruct (String.eqb (csv_name strip r) ""); [done|].
  pose proof (names_distinct_resolve_company (csv_company strip r) d H) as H1.
  destruct (resolve_company today (csv_company strip r) d) as [d1 ci].
  cbn [fst] in *. unfold company_names. by rewrite t_companies_insert_contact.
Qed.

(** X8. A contacts import never makes two companies of one name: when no two
    companies share a name before [ask_import_csv] with kind contacts, none
    do afterwards, however often the file names the same new company and
    whether or not the file is read to its end. *)
Theorem contacts_import_keeps_names_distinct (file : chosen_file) (c : conn) :
  NoDup (company_names (pending c)) ->
  NoDup (company_names
           (pending (fst (ask_import_csv strip today "contacts" file c)))).
Proof.
  intros H. destruct file as [| |r]; [done..|].
  unfold ask_import_csv. cbn [String.eqb Ascii.eqb Bool.eqb].
  destruct (read_into_result (import_contact strip today) r c) as [-> _].
  apply (invariant_foldl (fun d => NoDup (company_names d))
           (import_contact strip today) (yielded r) (pending c, O)
           names_distinct_import_contact H).
Qed.

End ImportInvariants.

Lemma companies_stay_named_witness :
  companies_named
    (pending (fst (ask_import_csv ascii_strip "2024-05-01" "contacts"
                     (whole_file contacts_csv) (connect_db init_db)))).
Proof.
  destruct (companies_stay_named ascii_strip "2024-05-01" (connect_db init_db))
    as (_ & _ & H).
  - constructor.
  - apply H.
Defined.

Lemma contacts_import_keeps_names_distinct_witness :
  NoDup (company_names
           (pending (fst (ask_import_csv ascii_strip "2024-05-01" "contacts"
                            (whole_file contacts_csv) (connect_db init_db)))))
  ∧ length (rows (t_companies
              (pending (fst (ask_import_csv ascii_strip "2024-05-01" "contacts"
                               (whole_file contacts_csv) (connect_db init_db))))))
    = 1%nat.
Proof.
  split; [|reflexivity].
  apply (contacts_import_keeps_names_distinct ascii_strip "2024-05-01").
  constructor.
Defined.

(** *** Creating a passcode and entering it *)

Section PasscodeRoundTrip.

Variable sha256_hex : string -> string.

(** X9. A passcode that was just created opens the gate, and only it does.
    Where the digest is never the empty string: when no passcode is stored,
    the offer to set one is accepted and the same passcode [p] is typed
    twice, [ensure_passcode] returns [True] and stores the hash of [p] under
    the salt drawn; at the next start, typing [p] at the first prompt returns
    [True] after that one prompt, and three entries whose hashes differ from
    that of [p] return [False]. *)
Theorem passcode_created_then_checked (ui : dialogs) (p : string) (c : conn)
    (fuel : nat) :
  (∀ s, sha256_hex s ≠ "") ->
  truthy (get_setting c "pass_hash") = false ->
  askyesno ui = true ->
  askstring ui 0 = Some p -> askstring ui 1 = Some p ->
  let salt := token_hex ui in
  ∃ c1,
    ensure_passcode sha256_hex ui (S fuel) c
      = Some {| pr_ok := true; pr_conn := c1; pr_entered := [] |}
    ∧ connect_db (stored c1) = c1
    ∧ get_setting c1 "pass_salt" = Some salt
    ∧ get_setting c1 "pass_hash" = Some (hash_pass sha256_hex p salt)
    ∧ (∀ ui2 fuel2,
         askstring ui2 0 = Some p ->
         ensure_passcode sha256_hex ui2 fuel2 c1
           = Some {| pr_ok := true; pr_conn := c1; pr_entered := [Some p] |})
    ∧ (∀ ui2 fuel2 q0 q1 q2,
         askstring ui2 0 = Some q0 -> askstring ui2 1 = Some q1 ->
         askstring ui2 2 = Some q2 ->
         Forall (fun q => hash_pass sha256_hex q salt ≠ hash_pass sha256_hex p salt)
                [q0; q1; q2] ->
         ensure_passcode sha256_hex ui2 fuel2 c1
           = Some {| pr_ok := false; pr_conn := c1;
                     pr_entered := [Some q0; Some q1; Some q2] |}).
Proof.
  intros Hsha Hnone Hyes Hp1 Hp2 salt.
  set (c1 := set_setting (set_setting c "pass_salt" salt) "pass_hash"
               (hash_pass sha256_hex p salt)).
  assert (get_setting c1 "pass_hash" = Some (hash_pass sha256_hex p salt)) as Hh
    by apply get_set_setting_same.
  assert (get_setting c1 "pass_salt" = Some salt) as Hs.
  { unfold c1. rewrite get_set_setting_other by done. apply get_set_setting_same. }
  assert (truthy (Some (hash_pass sha256_hex p salt)) = true) as Ht.
  { cbn [truthy]. apply negb_true_iff, String.eqb_neq, Hsha. }
  exists c1. split_and!; try done.
  - unfold ensure_passcode. rewrite Hnone, Hyes. cbn [negb create_loop].
    rewrite Hp1, Hp2. by rewrite decide_True.
  - intros ui2 fuel2 Hq. unfold ensure_passcode. rewrite Hh, Hs, Ht.
    cbn [negb or_empty enter_loop]. rewrite Hq.
    by rewrite String.eqb_refl.
  - intros ui2 fuel2 q0 q1 q2 H0 H1 H2 Hwrong.
    apply Forall_cons in Hwrong as [W0 Hwrong].
    apply Forall_cons in Hwrong as [W1 Hwrong].
    apply Forall_cons in Hwrong as [W2 _].
    apply String.eqb_neq in W0, W1, W2.
    unfold ensure_passcode. rewrite Hh, Hs, Ht.
    cbn [negb or_empty enter_loop]. by rewrite H0, W0, H1, W1, H2, W2.
Qed.

End PasscodeRoundTrip.

Lemma passcode_created_then_checked_witness :
  ∃ c1,
    ensure_passcode toy_digest (typist "open") 1 (connect_db init_db)
      = Some {| pr_ok := true; pr_conn := c1; pr_entered := [] |}
    ∧ ensure_passcode toy_digest (typist "open") 0 c1
      = Some {| pr_ok := true; pr_conn := c1; pr_entered := [Some "open"] |}
    ∧ ensure_passcode toy_digest (typist "shut") 0 c1
      = Some {| pr_ok := false; pr_conn := c1;
                pr_entered := [Some "shut"; Some "shut"; Some "shut"] |}.
Proof.
  destruct (passcode_created_then_checked toy_digest (typist "open") "open"
              (connect_db init_db) 0)
    as (c1 & H1 & _ & _ & _ & H2 & H3); try reflexivity.
  - intros s. unfold toy_digest. discriminate.
  - exists c1. split_and!.
    + exact H1.
    + by apply H2.
    + apply H3; try reflexivity.
      repeat constructor; vm_compute; discriminate.
Defined.

(** *** Choosing a company in the contacts form *)

Lemma spaceless_uint (d : Decimal.uint) :
  spaceless (NilEmpty.string_of_uint d) = true.
Proof. induction d; cbn [NilEmpty.string_of_uint spaceless]; by rewrite ?IHd. Qed.

Lemma spaceless_py_str (i : Z) : spaceless (py_str i) = true.
Proof.
  unfold py_str. destruct (Z.to_int i) as [d|d]; cbn [NilZero.string_of_int].
  - destruct d; try apply spaceless_uint. reflexivity.
  - cbn [spaceless]. destruct d; try apply spaceless_uint. reflexivity.
Qed.

Lemma before_sep_spaceless (d rest : string) :
  spaceless d = true -> before_sep (d +:+ " - " +:+ rest) = d.
Proof.
  induction d as [|a d IH]; intros H.
  - cbn. by destruct rest.
  - cbn [spaceless] in H. apply andb_true_iff in H as [Ha Hd].
    apply negb_true_iff in Ha.
    change (String a d +:+ " - " +:+ rest) with (String a (d +:+ " - " +:+ rest)).
    cbn [before_sep String.prefix]. rewrite Ascii.eqb_sym in Ha.
    destruct (ascii_dec " " a) as [<-|Hne].
    + by rewrite Ascii.eqb_refl in Ha.
    + by rewrite IH.
Qed.

Lemma before_sep_option_text (i : Z) (label : string) :
  before_sep (option_text i label) = py_str i.
Proof. apply before_sep_spaceless, spaceless_py_str. Qed.

Lemma decimal_int_py_str (i : Z) : decimal_int (py_str i) = Some i.
Proof.
  unfold decimal_int, py_str. rewrite NilZero.isi.
  - cbn. by rewrite DecimalZ.of_to.
  - destruct i; cbn; [done| |done].
    intros [= H]. by apply DecimalPos.Unsigned.to_uint_nonnil in H.
  - destruct i; cbn; [done..|].
    intros [= H]. by apply DecimalPos.Unsigned.to_uint_nonnil in H.
Qed.


Section ContactFacts.

Variable strip : string -> string.
Variable py_int : string -> option Z.
Variable tk_str : value -> string.
Variable fmt_str : value -> string.

(** [int(str(k))] is [k]. *)
Hypothesis py_int_py_str : ∀ k, py_int (py_str k) = Some k.

Lemma leading_id_option_text (i : Z) (label : string) :
  ContactsTab.leading_id py_int (option_text i label) = Some i.
Proof.
  unfold ContactsTab.leading_id. by rewrite before_sep_option_text.
Qed.

Lemma option_text_not_empty (i : Z) (label : string) :
  String.eqb (option_text i label) "" = false.
Proof.
  apply String.eqb_neq. unfold option_text, py_str.
  destruct (Z.to_int i) as [d|d]; cbn [NilZero.string_of_int]; [|done].
  destruct d; done.
Qed.


Lemma select_by_id_insert_row_other (t t' : table_name) (r : row) (d : db) (j : Z) :
  t ≠ t' -> select_by_id t' j (insert_row t r d) = select_by_id t' j d.
Proof.
  intros H. unfold select_by_id. by rewrite get_table_insert_row_other.
Qed.

Lemma select_by_id_update_row_other (t t' : table_name) (i : Z) (f : row -> row)
    (d : db) (j : Z) :
  t ≠ t' -> select_by_id t' j (update_row t i f d) = select_by_id t' j d.
Proof.
  intros H. unfold select_by_id. by rewrite get_table_update_row_other.
Qed.

Lemma select_by_id_delete_row_other (t t' : table_name) (i : Z) (d : db) (j : Z) :
  t ≠ t' -> select_by_id t' j (delete_row t i d) = select_by_id t' j d.
Proof.
  intros H. unfold select_by_id. by rewrite get_table_delete_row_other.
Qed.

Lemma company_entry_found (i : Z) (r0 : row) (d : db) :
  i ≠ 0 -> select_by_id companies i d = Some r0 ->
  ContactsTab.company_entry fmt_str (Some (VInt i)) d
  = Some (option_text i (ContactsTab.formatted fmt_str (r0 !! "name"))).
Proof.
  intros Hi Hr. cbn [ContactsTab.company_entry].
  apply Z.eqb_neq in Hi. by rewrite Hi, Hr.
Qed.

(** X11. What [ContactsTab.on_save] stores, [ContactsTab.on_select] shows.
    Where [int(str(k))] is [k]: after saving a contact with a name, new or
    over a contact that exists, with the entry of an existing company [i]
    (not 0, and of 64 bits) in the combobox, selecting the contact gives the
    stripped fields back and the combobox entry made of [i] and the name the
    company has in the store. *)
Theorem contact_save_then_select (f f0 : ContactsTab.form) (c : conn)
    (i : Z) (label : string) (r0 : row) :
  strip (ContactsTab.var_name f) ≠ "" ->
  (∀ j, ContactsTab.var_id f = Some j -> j ∈ rowids contacts (pending c)) ->
  ContactsTab.company_cb f = option_text i label ->
  i ≠ 0 -> sqlite_int i = true ->
  select_by_id companies i (pending c) = Some r0 ->
  let res := ContactsTab.on_save strip py_int f c in
  ContactsTab.on_select tk_str fmt_str (ContactsTab.var_id (fst res)) f0 (snd res)
  = Some {| ContactsTab.var_id := ContactsTab.var_id (fst res);
            ContactsTab.var_name := strip (ContactsTab.var_name f);
            ContactsTab.var_title := strip (ContactsTab.var_title f);
            ContactsTab.var_email := strip (ContactsTab.var_email f);
            ContactsTab.var_phone := strip (ContactsTab.var_phone f);
            ContactsTab.company_cb :=
              option_text i (ContactsTab.formatted fmt_str (r0 !! "name")) |}.
Proof.
  intros Hname Hid Hcb Hi Hfit Hr0 res. subst res. unfold ContactsTab.on_save.
  apply String.eqb_neq in Hname. rewrite Hname.
  assert (ContactsTab.chosen_company py_int f = Some i) as Hch.
  { unfold ContactsTab.chosen_company.
    by rewrite Hcb, option_text_not_empty, leading_id_option_text. }
  rewrite Hch. cbn [bindable]. rewrite Hfit. cbn [negb].
  destruct (ContactsTab.var_id f) as [j|] eqn:Hf; cbn [fst snd ContactsTab.var_id].
  - rewrite Hf. unfold ContactsTab.on_select. cbn [commit execute pending].
    rewrite select_by_id_update_row, decide_True by done.
    specialize (Hid j eq_refl).
    destruct (select_by_id contacts j (pending c)) as [r1|] eqn:Hr1.
    + cbn [fmap option_fmap option_map]. unfold ContactsTab.contact_update.
      repeat (rewrite ?lookup_insert_eq; rewrite ?lookup_insert_ne by done).
      rewrite (company_entry_found i r0);
        [done | done | by rewrite select_by_id_update_row_other].
    + apply select_by_id_None in Hr1. by destruct Hr1.
  - unfold ContactsTab.on_select. cbn [commit execute pending]. unfold lastrowid.
    rewrite select_by_id_insert_row. unfold contact_row.
    repeat (rewrite ?lookup_insert_eq; rewrite ?lookup_insert_ne by done).
    rewrite (company_entry_found i r0);
      [done | done | by rewrite select_by_id_insert_row_other].
Qed.

(** X12. [connect_db] never turns foreign keys on, so the [ON DELETE] clauses
    of the schema do not run: after [CompaniesTab.on_delete] removes company
    [i] (not 0), every other table is as it was, a contact that referred to
    [i] still does, and selecting that contact raises, because no company
    row is found for its [company_id]. *)
Theorem deleting_company_leaves_contacts (f0 : ContactsTab.form) (c : conn)
    (i j : Z) :
  i ≠ 0 ->
  column_of contacts j "company_id" (pending c) = Some (VInt i) ->
  let c' := snd (CompaniesTab_on_delete (Some i) true c) in
  (∀ t, t ≠ companies -> get_table t (pending c') = get_table t (pending c))
  ∧ column_of contacts j "company_id" (pending c') = Some (VInt i)
  ∧ ContactsTab.on_select tk_str fmt_str (Some j) f0 c' = None.
Proof.
  intros Hi Hcol c'. subst c'.
  cbn [CompaniesTab_on_delete snd commit execute pending].
  assert (∀ t, t ≠ companies ->
            get_table t (delete_row companies i (pending c))
            = get_table t (pending c)) as Hother
    by (intros t Ht; apply get_table_delete_row_other; congruence).
  assert (select_by_id contacts j (delete_row companies i (pending c))
          = select_by_id contacts j (pending c)) as Hsel
    by (by apply select_by_id_delete_row_other).
  split_and!; [done| |].
  - unfold column_of. by rewrite Hsel.
  - unfold ContactsTab.on_select. cbn [pending commit execute]. rewrite Hsel.
    unfold column_of in Hcol.
    destruct (select_by_id contacts j (pending c)) as [r|]; [|done].
    cbn [mbind option_bind] in Hcol. rewrite Hcol.
    cbn [ContactsTab.company_entry]. apply Z.eqb_neq in Hi. rewrite Hi.
    by rewrite select_by_id_delete_row, decide_True.
Qed.

End ContactFacts.


Lemma contact_save_then_select_witness :
  let c := snd (CompaniesTab_on_save ascii_strip "2024-05-01" (new_company "Acme")
                  (connect_db init_db)) in
  let f := {| ContactsTab.var_id := None; ContactsTab.var_name := " Ann ";
              ContactsTab.var_title := "CTO"; ContactsTab.var_email := "";
              ContactsTab.var_phone := ""; ContactsTab.company_cb := "1 - Acme" |} in
  ContactsTab.company_cb <$>
    ContactsTab.on_select (fun _ => "?") (fun _ => "?")
      (ContactsTab.var_id (fst (ContactsTab.on_save ascii_strip decimal_int f c))) f
      (snd (ContactsTab.on_save ascii_strip decimal_int f c))
  = Some "1 - Acme".
Proof.
  intros c f.
  rewrite (contact_save_then_select ascii_strip decimal_int (fun _ => "?")
             (fun _ => "?") decimal_int_py_str f f c 1 "Acme"
             (company_row "2024-05-01" "Acme" (VText "") (VText "") (VText "")
                (VText ""))).
  - reflexivity.
  - vm_compute. discriminate.
  - intros j Hj. discriminate Hj.
  - reflexivity.
  - lia.
  - reflexivity.
  - reflexivity.
Defined.

Lemma deleting_company_leaves_contacts_witness :
  let c := snd (CompaniesTab_on_save ascii_strip "2024-05-01" (new_company "Acme")
                  (connect_db init_db)) in
  let f := {| ContactsTab.var_id := None; ContactsTab.var_name := "Ann";
              ContactsTab.var_title := ""; ContactsTab.var_email := "";
              ContactsTab.var_phone := ""; ContactsTab.company_cb := "1 - Acme" |} in
  let c1 := snd (ContactsTab.on_save ascii_strip decimal_int f c) in
  let c2 := snd (CompaniesTab_on_delete (Some 1) true c1) in
  column_of contacts 1 "company_id" (pending c2) = Some (VInt 1)
  ∧ ContactsTab.on_select (fun _ => "?") (fun _ => "?") (Some 1) f c2 = None.
Proof.
  intros c f c1 c2.
  destruct (deleting_company_leaves_contacts (fun _ => "?") (fun _ => "?") f c1 1 1)
    as (_ & H1 & H2).
  - lia.
  - reflexivity.
  - split; [exact H1 | exact H2].
Defined.

(** *** What an import stores, and an export written and read back *)

Section ExportImportFacts.

Variable strip : string -> string.
Variable today : string.
Variable repr_float : float -> string.

Lemma foldl_import_company_rows (reader : list csv_record) (d : db) (a : nat) :
  map snd (rows (t_companies (fst (foldl (import_company strip today) (d, a) reader))))
  = map snd (rows (t_companies d))
    ++ map (company_of_record strip today) (List.filter (named strip) reader).
Proof.
  revert d a. induction reader as [|r reader IH]; intros d a.
  - cbn. by rewrite app_nil_r.
  - cbn [foldl List.filter]. unfold import_company at 2.
    unfold named at 1. destruct (String.eqb (csv_name strip r) ""); cbn [negb].
    + apply IH.
    + rewrite IH.
      pose proof (get_table_insert_row_same companies
                    (company_of_record strip today r) d) as Hi.
      cbn [get_table] in Hi. unfold company_of_record in Hi at 1. rewrite Hi.
      cbn [rows map]. rewrite map_app. cbn [map snd]. by rewrite <- app_assoc.
Qed.

Lemma company_row_columns (name : string) (a b w e : value) :
  let r := company_row today name a b w e in
  r !! "name" = Some (VText name)
  ∧ r !! "phone" = Some a ∧ r !! "email" = Some b
  ∧ r !! "website" = Some w ∧ r !! "address" = Some e
  ∧ r !! "created_at" = Some (VText today).
Proof.
  unfold company_row. cbn zeta.
  split_and!;
    repeat (rewrite ?lookup_insert_eq; rewrite ?lookup_insert_ne by done);
    reflexivity.
Qed.

(** X13. [ask_import_csv] for companies stores what the file says: after the
    companies that were there, in file order, one company for each record
    read that has a name, with the stripped name, with the phone, email,
    website and address of the record (empty text where the record has
    none), and with today as its creation date. When the file is read to its
    end these rows are committed and their number is reported; when the read
    raises part-way, the rows of the records read before it are in the
    connection's view, nothing is committed and nothing is reported. *)
Theorem companies_import_content (r : csv_read) (c : conn) :
  let res := ask_import_csv strip today "companies" (opened r) c in
  map snd (rows (t_companies (pending (fst res))))
  = map snd (rows (t_companies (pending c)))
    ++ map (company_of_record strip today) (List.filter (named strip) (yielded r))
  ∧ (if raises r
     then stored (fst res) = stored c ∧ snd res = None
     else stored (fst res) = pending (fst res)
          ∧ snd res = Some (length (List.filter (named strip) (yielded r))))
  ∧ (∀ x,
       let rc := company_of_record strip today x in
       rc !! "name" = Some (VText (csv_name strip x))
       ∧ rc !! "phone" = Some (VText (or_empty (x !! "phone")))
       ∧ rc !! "email" = Some (VText (or_empty (x !! "email")))
       ∧ rc !! "website" = Some (VText (or_empty (x !! "website")))
       ∧ rc !! "address" = Some (VText (or_empty (x !! "address")))
       ∧ rc !! "created_at" = Some (VText today)).
Proof.
  cbn zeta. unfold ask_import_csv. cbn [String.eqb Ascii.eqb Bool.eqb].
  pose proof (read_into_result (import_company strip today) r c) as [Hp Hr].
  pose proof (foldl_import_company_rows (yielded r) (pending c) O) as H.
  pose proof (foldl_import_company strip today (yielded r) (pending c) O)
    as [Hn _].
  cbn zeta in *. split_and!.
  - by rewrite Hp.
  - destruct (raises r); destruct Hr as [Hr1 Hr2]; [done|].
    rewrite Hr1, Hr2, Hp, Hn. done.
  - intros x. apply company_row_columns.
Qed.

Lemma csv_field_default (v : option value) :
  csv_field repr_float (Some (default VNull v)) = csv_field repr_float v.
Proof. by destruct v as [[]|]. Qed.

Lemma exported_record_reads (p : Z * row) :
  company_of_record strip today (exported_record repr_float p)
  = reimported repr_float strip today p
  ∧ named strip (exported_record repr_float p) = kept repr_float strip p.
Proof.
  assert (∀ col, col ≠ "id" -> col ∈ company_columns ->
            exported_record repr_float p !! col = Some (csv_field repr_float (snd p !! col)))
    as Hcol.
  { intros col Hid Hin.
    unfold exported_record, record_of, exported_line, row_dict, company_columns in *.
    cbn [foldl zip zip_with map fst snd String.eqb Ascii.eqb Bool.eqb length drop].
    repeat (apply elem_of_cons in Hin as [-> | Hin]; [
      repeat (rewrite ?lookup_insert_eq; rewrite ?lookup_insert_ne by done);
      try done; apply f_equal, csv_field_default |]).
    by apply elem_of_nil in Hin. }
  assert (exported_record repr_float p !! "Name" = None) as HName.
  { unfold exported_record, record_of, exported_line, company_columns.
    cbn [foldl zip zip_with map fst snd length drop].
    by repeat (rewrite lookup_insert_ne by done). }
  assert (csv_name strip (exported_record repr_float p)
          = strip (csv_field repr_float (snd p !! "name"))) as Hname.
  { unfold csv_name. rewrite HName, Hcol; [|done|set_solver].
    unfold first_of. cbn [truthy or_empty].
    by destruct (String.eqb (csv_field repr_float (snd p !! "name")) "") eqn:He;
      [apply String.eqb_eq in He; rewrite He|]. }
  split.
  - unfold company_of_record, reimported. rewrite Hname.
    rewrite !Hcol; [done | done | set_solver..].
  - unfold named, kept. by rewrite Hname.
Qed.

Variable py_len : string -> Z.

(** A text has at most as many characters as bytes. *)
Hypothesis py_len_le : ∀ s, py_len s <= Z.of_nat (String.length s).

Lemma header_fits : oversized py_len company_columns = false.
Proof.
  unfold oversized, company_columns. cbn [existsb].
  repeat (apply orb_false_iff; split); try done;
    apply Z.ltb_ge;
    match goal with |- py_len ?x <= _ =>
      etrans; [apply (py_len_le x)|]; by vm_compute end.
Qed.

Lemma read_rows_export (fetched : list (Z * row)) :
  read_rows py_len company_columns (map (exported_line repr_float) fetched)
  = {| yielded := map (exported_record repr_float)
                    (read_back repr_float py_len fetched);
       raises := existsb (fun p => oversized py_len (exported_line repr_float p))
                   fetched |}.
Proof.
  induction fetched as [|p l IH]; [done|].
  cbn [map read_rows read_back existsb].
  destruct (oversized py_len (exported_line repr_float p)) eqn:Ho; [done|].
  rewrite IH. cbn [orb yielded raises map]. reflexivity.
Qed.

Lemma read_back_all (fetched : list (Z * row)) :
  existsb (fun p => oversized py_len (exported_line repr_float p)) fetched = false ->
  read_back repr_float py_len fetched = fetched.
Proof.
  induction fetched as [|p l IH]; [done|]. cbn [existsb read_back].
  intros H. apply orb_false_iff in H as [-> H]. by rewrite IH.
Qed.

Lemma reimported_reads (l : list (Z * row)) :
  map (company_of_record strip today)
      (List.filter (named strip) (map (exported_record repr_float) l))
  = map (reimported repr_float strip today)
        (List.filter (kept repr_float strip) l).
Proof.
  induction l as [|p l IH]; [done|]. cbn [map List.filter].
  destruct (exported_record_reads p) as [H1 H2]. rewrite H2.
  destruct (kept repr_float strip p); cbn [map]; by rewrite ?H1, IH.
Qed.

(** X14. A companies file written by [export_companies] and read back by
    [ask_import_csv]: the columns it writes are the ones the import looks
    for. The reader gets through the exported rows before the first one with
    a field over the size limit, and raises there. Importing the file adds,
    in the exported order, one company for each row read whose stripped name
    is not empty, with that stripped name and with the phone, email, website
    and address written ([NULL] comes back as empty text) and today as its
    creation date. When no row has an oversized field, all rows are read, the
    companies are committed, and the counts shown are the number of exported
    rows and the number of kept rows; otherwise nothing is committed and the
    import shows no count. A company as [on_save] stores it, with a name that
    stripping leaves alone, comes back with the same columns but for its
    creation date. Without a chosen path nothing is written. *)
Theorem export_then_import_companies (fetched : list (Z * row)) (c : conn) :
  ∃ file,
    export_companies repr_float fetched true = Some (file, length fetched)
    ∧ dict_reader py_len file
      = {| yielded := map (exported_record repr_float)
                        (read_back repr_float py_len fetched);
           raises := existsb (fun p => oversized py_len (exported_line repr_float p))
                       fetched |}
    ∧ (let res := ask_import_csv strip today "companies"
                    (opened (dict_reader py_len file)) c in
       map snd (rows (t_companies (pending (fst res))))
       = map snd (rows (t_companies (pending c)))
         ++ map (reimported repr_float strip today)
                (List.filter (kept repr_float strip)
                   (read_back repr_float py_len fetched))
       ∧ if existsb (fun p => oversized py_len (exported_line repr_float p)) fetched
         then snd res = None ∧ stored (fst res) = stored c
         else read_back repr_float py_len fetched = fetched
              ∧ snd res = Some (length (List.filter (kept repr_float strip) fetched))
              ∧ stored (fst res) = pending (fst res))
    ∧ (∀ p,
         let rc := reimported repr_float strip today p in
         rc !! "name" = Some (VText (strip (csv_field repr_float (snd p !! "name"))))
         ∧ rc !! "phone" = Some (VText (csv_field repr_float (snd p !! "phone")))
         ∧ rc !! "email" = Some (VText (csv_field repr_float (snd p !! "email")))
         ∧ rc !! "website" = Some (VText (csv_field repr_float (snd p !! "website")))
         ∧ rc !! "address" = Some (VText (csv_field repr_float (snd p !! "address")))
         ∧ rc !! "created_at" = Some (VText today))
    ∧ (∀ id was name phone email website address,
         strip name = name ->
         reimported repr_float strip today
           (id, company_row was name (VText phone) (VText email) (VText website)
                  (VText address))
         = company_row today name (VText phone) (VText email) (VText website)
             (VText address))
    ∧ export_companies repr_float fetched false = None.
Proof.
  eexists. split_and!.
  - unfold export_companies, ask_export_csv. by rewrite length_map.
  - unfold dict_reader. rewrite header_fits, map_map. apply read_rows_export.
  - unfold dict_reader. rewrite header_fits, map_map.
    change (map (fun x => map (fun h => csv_field repr_float (row_dict company_columns x !! h))
                           company_columns) fetched)
      with (map (exported_line repr_float) fetched).
    rewrite read_rows_export.
    set (r := {| yielded := map (exported_record repr_float)
                              (read_back repr_float py_len fetched);
                 raises := existsb (fun p => oversized py_len
                                               (exported_line repr_float p))
                             fetched |}).
    destruct (companies_import_content r c) as (Hrows & Hres & _).
    cbn zeta in *. split.
    + rewrite Hrows. subst r. cbn [yielded]. by rewrite reimported_reads.
    + subst r. cbn [raises yielded] in *.
      destruct (existsb (fun p => oversized py_len (exported_line repr_float p))
                  fetched) eqn:Hover.
      * by destruct Hres.
      * destruct Hres as [Hst Hn]. rewrite (read_back_all fetched Hover) in *.
        split_and!; [done| |done]. rewrite Hn. f_equal.
        rewrite <- (length_map (company_of_record strip today)), reimported_reads.
        by rewrite length_map.
  - intros p. apply company_row_columns.
  - intros id was name phone email website address Hs.
    unfold reimported. cbn [snd]. unfold company_row at 1 2 3 4 5.
    repeat (rewrite ?lookup_insert_eq; rewrite ?lookup_insert_ne by done).
    cbn [csv_field]. by rewrite Hs.
  - reflexivity.
Qed.

End ExportImportFacts.

Lemma export_then_import_companies_witness :
  ∃ file,
    export_companies (fun _ => "0.0")
      [(7, company_row "2024-05-01" "Acme" (VText "555") (VText "") (VText "")
             (VText ""))] true
    = Some (file, 1%nat)
    ∧ snd (ask_import_csv ascii_strip "2024-06-01" "companies"
             (opened (dict_reader (fun s => Z.of_nat (String.length s)) file))
             (connect_db init_db))
      = Some 1%nat.
Proof.
  destruct (export_then_import_companies ascii_strip "2024-06-01" (fun _ => "0.0")
              (fun s => Z.of_nat (String.length s))
              (fun s => Z.le_refl _)
              [(7, company_row "2024-05-01" "Acme" (VText "555") (VText "")
                     (VText "") (VText ""))]
              (connect_db init_db))
    as (file & Hexp & _ & (_ & Hres) & _).
  exists file. split; [exact Hexp|].
  assert (existsb (fun p => oversized (fun s => Z.of_nat (String.length s))
                              (exported_line (fun _ => "0.0") p))
            [(7, company_row "2024-05-01" "Acme" (VText "555") (VText "")
                   (VText "") (VText ""))] = false) as Hfits
    by (vm_compute; reflexivity).
  rewrite Hfits in Hres. destruct Hres as (_ & Hn & _).
  rewrite Hn. vm_compute. reflexivity.
Defined.

(** *** Saving a deal *)

Section DealFacts.

Variable strip : string -> string.
Variable py_int : string -> option Z.
Variable py_float : string -> option float.
Variable date_today : string.

Lemma deal_columns_valid (n : Z) (f : DealsTab.form) (x : float) (r : row) :
  String.eqb (strip (DealsTab.var_title f)) "" = false -> n ≠ 0 ->
  let r' := DealsTab.deal_columns strip py_int date_today n f x r in
  (∃ s, r' !! "title" = Some (VText s) ∧ s ≠ "")
  ∧ (∃ k, r' !! "company_id" = Some (VInt k) ∧ k ≠ 0).
Proof.
  intros Ht Hn r'. subst r'. unfold DealsTab.deal_columns. split.
  - exists (strip (DealsTab.var_title f)).
    repeat (rewrite ?lookup_insert_eq; rewrite ?lookup_insert_ne by done).
    split; [done | by apply String.eqb_neq].
  - exists n. by rewrite lookup_insert_eq.
Qed.

Lemma deals_valid_delete (c : conn) (id : option Z) (confirm : bool) :
  deals_valid (pending c) ->
  deals_valid (pending (snd (DealsTab_on_delete id confirm c))).
Proof.
  intros H. destruct id as [i|], confirm;
    cbn [DealsTab_on_delete snd commit execute pending]; try done.
  unfold deals_valid.
  pose proof (get_table_delete_row_same deals i (pending c)) as Hd.
  cbn [get_table] in Hd. rewrite Hd. cbn [rows].
  apply Forall_forall. intros p Hp. apply list_elem_of_filter in Hp as [_ Hp].
  unfold deals_valid in H. rewrite Forall_forall in H. by apply H.
Qed.

(** X15. [DealsTab.on_save] stores a deal only when the stripped title is
    not empty, the value is blank or a number, and the part of the company
    text before the first [" - "] is a whole number of 64 bits other than 0
    (so a company id 0 counts as no company); it does store it when,
    besides, the value is not NaN and the contact id can be bound. When it
    does not store, because of a warning or of an exception of [execute],
    the store and the form are as they were. Hence, when every deal has a
    non-empty title and a non-zero company id, this is still so after
    [on_save] and after [DealsTab.on_delete]. *)
Theorem deal_save_checks (f : DealsTab.form) (c : conn) :
  let res := DealsTab.on_save strip py_int py_float date_today f c in
  (fst (fst res) ≠ DealsTab.saved -> res = (fst (fst res), f, c))
  ∧ (fst (fst res) = DealsTab.saved ->
     strip (DealsTab.var_title f) ≠ ""
     ∧ is_Some (DealsTab.parsed_value strip py_float f)
     ∧ ∃ n, DealsTab.parsed_company py_int f = Some n ∧ n ≠ 0
            ∧ sqlite_int n = true)
  ∧ (∀ x n,
       strip (DealsTab.var_title f) ≠ "" ->
       DealsTab.parsed_value strip py_float f = Some x ->
       PrimFloat.is_nan x = false ->
       DealsTab.parsed_company py_int f = Some n -> n ≠ 0 ->
       sqlite_int n = true ->
       bindable (DealsTab.parsed_contact py_int f) = true ->
       fst (fst res) = DealsTab.saved)
  ∧ (deals_valid (pending c) ->
     deals_valid (pending (snd res))
     ∧ ∀ id confirm, deals_valid (pending (snd (DealsTab_on_delete id confirm c)))).
Proof.
  intros res. subst res. unfold DealsTab.on_save.
  pose proof (fun H id confirm => deals_valid_delete c id confirm H) as Hdel.
  destruct (String.eqb (strip (DealsTab.var_title f)) "") eqn:Ht.
  { apply String.eqb_eq in Ht. cbn [fst snd].
    split_and!; [done | done | by intros | intros; split; auto]. }
  assert (strip (DealsTab.var_title f) ≠ "") as Ht' by (by apply String.eqb_neq).
  destruct (DealsTab.parsed_value strip py_float f) as [x|] eqn:Hv.
  2:{ cbn [fst snd].
      split_and!; [done | done | by intros | intros; split; auto]. }
  destruct (DealsTab.parsed_company py_int f) as [n|] eqn:Hc.
  2:{ cbn [fst snd].
      split_and!; [done | done | by intros | intros; split; auto]. }
  destruct (decide (n = 0)) as [->|Hn].
  { cbn [fst snd].
    split_and!; [done | done | intros; by simplify_eq | intros; split; auto]. }
  assert (∀ A (a b : A), match n with 0 => a | _ => b end = b) as Hmatch
    by (intros A a b; by destruct n).
  rewrite Hmatch.
  destruct (sqlite_int n) eqn:Hfit; cbn [andb negb].
  2:{ cbn [fst snd].
      split_and!; [done | done | intros; simplify_eq; congruence
                  | intros; split; auto]. }
  destruct (bindable (DealsTab.parsed_contact py_int f)) eqn:Hb; cbn [negb].
  2:{ cbn [fst snd].
      split_and!; [done | done | intros; simplify_eq; congruence
                  | intros; split; auto]. }
  assert (strip (DealsTab.var_title f) ≠ ""
          ∧ is_Some (Some x)
          ∧ ∃ k, Some n = Some k ∧ k ≠ 0 ∧ sqlite_int k = true) as Hneed
    by (split_and!; [done | by eexists | by exists n]).
  destruct (DealsTab.var_id f) as [i|].
  - destruct (PrimFloat.is_nan x && bool_decide (i ∈ rowids deals (pending c)))
      eqn:Hnan; cbn [fst snd commit execute pending].
    + apply andb_true_iff in Hnan as [Hnan _].
      split_and!; [done | done | intros; simplify_eq; congruence
                  | intros; split; auto].
    + split_and!; [done | done | done |].
      intros H. split; [|by apply Hdel]. unfold deals_valid.
      pose proof (get_table_update_row_same deals i
        (DealsTab.deal_columns strip py_int date_today n f x) (pending c)) as Hu.
      cbn [get_table] in Hu. rewrite Hu. cbn [rows].
      apply Forall_map. eapply Forall_impl; [exact H|].
      intros p Hp. cbn beta. destruct (decide (fst p = i)); [|done]. cbn [snd].
      by apply deal_columns_valid.
  - destruct (PrimFloat.is_nan x) eqn:Hnan; cbn [fst snd commit execute pending].
    + split_and!; [done | done | intros; simplify_eq; congruence
                  | intros; split; auto].
    + split_and!; [done | done | done |].
      intros H. split; [|by apply Hdel]. unfold deals_valid.
      pose proof (get_table_insert_row_same deals
        (DealsTab.deal_columns strip py_int date_today n f x ∅) (pending c)) as Hi.
      cbn [get_table] in Hi. rewrite Hi. cbn [rows].
      apply Forall_app. split; [done|]. repeat constructor; cbn [snd];
        by apply deal_columns_valid.
Qed.

Lemma deal_columns_company (n : Z) (f : DealsTab.form) (x : float) (r : row) :
  DealsTab.deal_columns strip py_int date_today n f x r !! "company_id"
  = Some (VInt n).
Proof. unfold DealsTab.deal_columns. apply lookup_insert_eq. Qed.

Lemma listed_deals_elem (d : db) (i : Z) :
  i ∈ listed_deals d
  <-> ∃ r, (i, r) ∈ rows (t_deals d) ∧ deal_listed d (i, r) = true.
Proof.
  unfold listed_deals. rewrite list_elem_of_In, in_map_iff. split.
  - intros ([j r] & <- & Hin). apply filter_In in Hin as [Hin Hl].
    exists r. by rewrite list_elem_of_In.
  - intros (r & Hin & Hl). exists (i, r). split; [done|].
    apply filter_In. by rewrite <- list_elem_of_In.
Qed.

(** X16. A deal is in the list of the deals tab only while its company
    exists, and the store keeps it all the same. [on_save] does not look the
    company up: a new deal saved with company id [n] is stored, and it is in
    the tree that [refresh] fills exactly when a company has the id [n].
    Foreign keys are off, so after [CompaniesTab.on_delete] removes that
    company the deals table is as it was, the deal is still stored, and the
    tree no longer has it. *)
Theorem deal_listed_while_company_exists (f : DealsTab.form) (c : conn) (n : Z) :
  DealsTab.var_id f = None ->
  fst (fst (DealsTab.on_save strip py_int py_float date_today f c))
  = DealsTab.saved ->
  DealsTab.parsed_company py_int f = Some n ->
  let i := lastrowid deals (pending c) in
  let c1 := snd (DealsTab.on_save strip py_int py_float date_today f c) in
  let c2 := snd (CompaniesTab_on_delete (Some n) true c1) in
  column_of deals i "company_id" (pending c1) = Some (VInt n)
  ∧ (i ∈ listed_deals (pending c1) <-> n ∈ rowids companies (pending c))
  ∧ t_deals (pending c2) = t_deals (pending c1)
  ∧ column_of deals i "company_id" (pending c2) = Some (VInt n)
  ∧ i ∉ listed_deals (pending c2).
Proof.
  intros Hnew Hsaved Hc i c1 c2. subst i c1 c2.
  unfold DealsTab.on_save in *. rewrite Hc, Hnew in *.
  destruct (String.eqb (strip (DealsTab.var_title f)) ""); [done|].
  destruct (DealsTab.parsed_value strip py_float f) as [x|]; [|done].
  destruct (decide (n = 0)) as [->|Hn]; [done|].
  assert (∀ A (a b : A), match n with 0 => a | _ => b end = b) as Hmatch
    by (intros A a b; by destruct n).
  rewrite Hmatch in *.
  destruct (negb (sqlite_int n && bindable (DealsTab.parsed_contact py_int f)));
    [done|].
  destruct (PrimFloat.is_nan x); [done|]. clear Hsaved Hmatch.
  cbn [fst snd CompaniesTab_on_delete commit execute pending].
  set (r := DealsTab.deal_columns strip py_int date_today n f x ∅).
  set (d := pending c). unfold lastrowid.
  set (i := next_rowid (get_table deals d)).
  assert (rows (t_deals (insert_row deals r d)) = rows (t_deals d) ++ [(i, r)])
    as Hrows.
  { pose proof (get_table_insert_row_same deals r d) as Hi.
    cbn [get_table] in Hi. by rewrite Hi. }
  assert (∀ r', (i, r') ∈ rows (t_deals d) ++ [(i, r)] -> r' = r) as Hone.
  { intros r' Hin. apply elem_of_app in Hin as [Hin | Hin].
    - assert (i ∈ map fst (rows (get_table deals d))) as Hi.
      { apply list_elem_of_In, in_map_iff. exists (i, r').
        split; [done | by apply list_elem_of_In]. }
      apply next_rowid_fresh in Hi. subst i. lia.
    - apply list_elem_of_singleton in Hin. by injection Hin. }
  assert (column_of deals i "company_id" (insert_row deals r d) = Some (VInt n))
    as Hcol.
  { unfold column_of. subst i. rewrite select_by_id_insert_row.
    cbn [mbind option_bind]. apply deal_columns_company. }
  assert (t_deals (delete_row companies n (insert_row deals r d))
          = t_deals (insert_row deals r d)) as Hkept
    by (by apply (get_table_delete_row_other companies deals)).
  split_and!.
  - exact Hcol.
  - rewrite listed_deals_elem, Hrows. unfold deal_listed, rowids.
    rewrite get_table_insert_row_other by done. split.
    + intros (r' & Hin & Hl). apply Hone in Hin as ->. cbn [snd] in Hl.
      subst r. rewrite deal_columns_company in Hl.
      by apply bool_decide_eq_true in Hl.
    + intros Hin. exists r. split; [apply elem_of_app; right; apply list_elem_of_here|].
      cbn [snd]. subst r. rewrite deal_columns_company.
      by apply bool_decide_eq_true.
  - exact Hkept.
  - unfold column_of in *. by rewrite select_by_id_delete_row_other.
  - rewrite listed_deals_elem, Hkept, Hrows. intros (r' & Hin & Hl).
    apply Hone in Hin as ->. unfold deal_listed, rowids in Hl. cbn [snd] in Hl.
    subst r. rewrite deal_columns_company in Hl.
    apply bool_decide_eq_true in Hl.
    rewrite get_table_delete_row_same in Hl. cbn [rows] in Hl.
    rewrite map_fst_filter_ne in Hl. apply list_elem_of_filter in Hl as [Hne _].
    done.
Qed.

End DealFacts.

Lemma deal_save_checks_witness :
  let f := {| DealsTab.var_id := None; DealsTab.var_title := " Pilot ";
              DealsTab.var_value := ""; DealsTab.stage_cb := "";
              DealsTab.var_created := ""; DealsTab.var_close := "";
              DealsTab.txt_notes := ""; DealsTab.company_cb := "7 - Acme";
              DealsTab.contact_cb := "" |} in
  fst (fst (DealsTab.on_save ascii_strip decimal_int (fun _ => None) "2024-05-01" f
              (connect_db init_db)))
  = DealsTab.saved.
Proof.
  intros f.
  destruct (deal_save_checks ascii_strip decimal_int (fun _ => None) "2024-05-01" f
              (connect_db init_db)) as (_ & _ & H & _).
  apply (H PrimFloat.zero 7).
  - vm_compute. discriminate.
  - reflexivity.
  - reflexivity.
  - reflexivity.
  - lia.
  - reflexivity.
  - reflexivity.
Defined.

Lemma deal_listed_while_company_exists_witness :
  let c := snd (CompaniesTab_on_save ascii_strip "2024-05-01" (new_company "Acme")
                  (connect_db init_db)) in
  let f := {| DealsTab.var_id := None; DealsTab.var_title := "Pilot";
              DealsTab.var_value := ""; DealsTab.stage_cb := "";
              DealsTab.var_created := ""; DealsTab.var_close := "";
              DealsTab.txt_notes := ""; DealsTab.company_cb := "1 - Acme";
              DealsTab.contact_cb := "" |} in
  let c1 := snd (DealsTab.on_save ascii_strip decimal_int (fun _ => None)
                   "2024-05-01" f c) in
  let c2 := snd (CompaniesTab_on_delete (Some 1) true c1) in
  1 ∈ listed_deals (pending c1)
  ∧ column_of deals 1 "company_id" (pending c2) = Some (VInt 1)
  ∧ 1 ∉ listed_deals (pending c2).
Proof.
  intros c f c1 c2.
  destruct (deal_listed_while_company_exists ascii_strip decimal_int (fun _ => None)
              "2024-05-01" f c 1) as (_ & H1 & _ & H2 & H3).
  - reflexivity.
  - reflexivity.
  - reflexivity.
  - split_and!; [|exact H2 | exact H3].
    apply H1. vm_compute. apply list_elem_of_here.
Defined.

(** *** The items of an invoice *)

Section ItemFacts.

Variable py_float : string -> option float.

Lemma items_described_insert (r : row) (d : db) (text : string) :
  r !! "description" = Some (VText text) -> text ≠ "" ->
  items_described d -> items_described (insert_row invoice_items r d).
Proof.
  intros Hr Ht H. unfold items_described.
  pose proof (get_table_insert_row_same invoice_items r d) as Hi.
  cbn [get_table] in Hi. rewrite Hi. cbn [rows].
  apply Forall_app. split; [done|]. repeat constructor. by exists text.
Qed.

Lemma items_described_update (i : Z) (g : row -> row) (d : db) (text : string) :
  (∀ r, g r !! "description" = Some (VText text)) -> text ≠ "" ->
  items_described d -> items_described (update_row invoice_items i g d).
Proof.
  intros Hg Ht H. unfold items_described.
  pose proof (get_table_update_row_same invoice_items i g d) as Hu.
  cbn [get_table] in Hu. rewrite Hu. cbn [rows].
  apply Forall_map. eapply Forall_impl; [exact H|].
  intros p Hp. cbn beta. destruct (decide (fst p = i)); [|done].
  cbn [snd]. by exists text.
Qed.

Lemma items_described_delete (i : Z) (d : db) :
  items_described d -> items_described (delete_row invoice_items i d).
Proof.
  intros H. unfold items_described.
  pose proof (get_table_delete_row_same invoice_items i d) as Hd.
  cbn [get_table] in Hd. rewrite Hd. cbn [rows].
  apply Forall_forall. intros p Hp. apply list_elem_of_filter in Hp as [_ Hp].
  unfold items_described in H. rewrite Forall_forall in H. by apply H.
Qed.

Lemma item_columns_description (text : string) (qty price : float) (r : row) :
  InvoicesTab.item_columns text qty price r !! "description" = Some (VText text).
Proof. unfold InvoicesTab.item_columns. apply lookup_insert_eq. Qed.

(** X17. The answers to the item dialogs. [add_item] refuses an empty
    description, so when every item has a description, this is still so
    after [add_item], after [delete_item], and after [edit_item] with any
    answer but the empty text. [edit_item] only returns when the description
    dialog is cancelled: with the empty text as the answer it stores an empty
    description, and with the quantity and price dialogs cancelled it does
    not keep the item's quantity and price but stores 1 and 0; the invoice of
    the item stays. *)
Theorem item_dialog_answers (c : conn) (i : Z) :
  items_described (pending c) ->
  i ∈ rowids invoice_items (pending c) ->
  (∀ var_id desc q p,
     items_described (pending (snd (InvoicesTab.add_item py_float var_id desc q p c))))
  ∧ (∀ sel confirm, items_described (pending (InvoicesTab.delete_item sel confirm c)))
  ∧ (∀ sel desc q p,
       desc ≠ Some "" ->
       items_described (pending (snd (InvoicesTab.edit_item py_float sel desc q p c))))
  ∧ (let res := InvoicesTab.edit_item py_float (Some i) (Some "") None None c in
     fst res = InvoicesTab.stored_item
     ∧ column_of invoice_items i "description" (pending (snd res)) = Some (VText "")
     ∧ column_of invoice_items i "qty" (pending (snd res))
       = Some (VReal PrimFloat.one)
     ∧ column_of invoice_items i "unit_price" (pending (snd res))
       = Some (VReal PrimFloat.zero)
     ∧ column_of invoice_items i "invoice_id" (pending (snd res))
       = column_of invoice_items i "invoice_id" (pending c)).
Proof.
  intros H Hi. split_and!.
  - intros [inv|] desc q p; cbn [InvoicesTab.add_item snd]; [|done].
    destruct desc as [[|a text]|]; [done| |done].
    destruct (InvoicesTab.number_or py_float PrimFloat.one q) as [qty|]; [|done].
    destruct (InvoicesTab.number_or py_float PrimFloat.zero p) as [price|]; [|done].
    destruct (PrimFloat.is_nan qty || PrimFloat.is_nan price); [done|].
    cbn [snd commit execute pending].
    apply (items_described_insert _ _ (String a text)); [|done|done].
    unfold InvoicesTab.item_row. rewrite lookup_insert_ne by done.
    apply item_columns_description.
  - intros [j|] [|]; cbn [InvoicesTab.delete_item commit execute pending];
      try done. by apply items_described_delete.
  - intros [j|] desc q p Hdesc; cbn [InvoicesTab.edit_item snd]; [|done].
    destruct (select_by_id invoice_items j (pending c)); [|done].
    destruct desc as [text|]; [|done].
    destruct (InvoicesTab.number_or py_float PrimFloat.one q) as [qty|]; [|done].
    destruct (InvoicesTab.number_or py_float PrimFloat.zero p) as [price|]; [|done].
    destruct (PrimFloat.is_nan qty || PrimFloat.is_nan price); [done|].
    cbn [snd commit execute pending].
    apply (items_described_update _ _ _ text); [|congruence|done].
    intros r. apply item_columns_description.
  - cbn zeta. cbn [InvoicesTab.edit_item InvoicesTab.number_or].
    destruct (select_by_id invoice_items i (pending c)) as [r|] eqn:Hr.
    2:{ apply select_by_id_None in Hr. by destruct Hr. }
    change (PrimFloat.is_nan PrimFloat.one || PrimFloat.is_nan PrimFloat.zero)
      with false.
    cbn [fst snd commit execute pending]. unfold column_of.
    rewrite select_by_id_update_row, decide_True, Hr by done.
    cbn [fmap option_fmap option_map mbind option_bind].
    unfold InvoicesTab.item_columns.
    split_and!; try done;
      repeat (rewrite ?lookup_insert_eq; rewrite ?lookup_insert_ne by done); done.
Qed.

End ItemFacts.

Lemma item_dialog_answers_witness :
  let c := snd (InvoicesTab.add_item (fun _ => None) (Some 4) (Some "Design")
                  (Some "") None (connect_db init_db)) in
  column_of invoice_items 1 "description"
    (pending (snd (InvoicesTab.edit_item (fun _ => None) (Some 1) (Some "")
                     None None c)))
  = Some (VText "").
Proof.
  intros c.
  destruct (item_dialog_answers (fun _ => None) c 1) as (_ & _ & _ & _ & H & _).
  - repeat constructor. by exists "Design".
  - vm_compute. apply list_elem_of_here.
  - exact H.
Defined.

End MoreAppFacts.
